(** * PrivateSetIntersectionFHE: a shallow embedding of the contract

    The contract keeps five storage variables (a set counter and four
    mappings), offers three state-changing entry points
    ([submitEncryptedSet], [requestMultiPSI], [receivePSIResult]) and three
    views.  Storage mappings are finite maps read with Solidity's zero
    default; [uint256] values are integers with the checked arithmetic of
    Solidity 0.8 (an overflow reverts with [Panic(0x11)]); a revert discards
    every write of the call.  The FHE library and [keccak256] are external to
    the repository and enter as the fields of a class.  Gas and [msg.value]
    are not modelled. *)

From Stdlib Require Import ZArith String List Lia.
From Stdlib Require Import Init.Byte.
From stdpp Require Import gmap list strings.

Local Open Scope Z_scope.

(** ** Value types *)

Abbreviation address := Z (only parsing).
Abbreviation uint256 := Z (only parsing).
Abbreviation bytes32 := Z (only parsing).
Abbreviation bytes4 := Z (only parsing).
Abbreviation bytes := (list byte) (only parsing).

Definition MAX_UINT256 : Z := 2 ^ 256 - 1.

(** Why a call reverted: a failed [require] with its message, a compiler
    inserted [Panic] with its code, or the FHE library refusing a proof. *)
Inductive Revert : Type :=
| Error (reason : string)
| Panic (code : Z)
| InvalidSignatures.

Definition PANIC_OVERFLOW : Z := 17.     (* 0x11 *)
Definition PANIC_INDEX : Z := 50.        (* 0x32 *)
Definition PANIC_ALLOC : Z := 65.        (* 0x41 *)

(** The longest memory array [new] agrees to create. *)
Definition MAX_ARRAY_LENGTH : Z := 2 ^ 64 - 1.

(** ** Structs *)

Module EncryptedSet.
Record t : Type := mk
  { id : uint256; owner : address; items : list bytes32; timestamp : uint256 }.
Definition zero : t := mk 0 0 [] 0.
Definition with_id (v : uint256) (s : t) : t := mk v (owner s) (items s) (timestamp s).
Definition with_owner (v : address) (s : t) : t := mk (id s) v (items s) (timestamp s).
Definition with_timestamp (v : uint256) (s : t) : t := mk (id s) (owner s) (items s) v.
Definition push (x : bytes32) (s : t) : t := mk (id s) (owner s) (items s ++ [x]) (timestamp s).
End EncryptedSet.

Module PSIRequest.
Record t : Type := mk
  { id : uint256; requester : address; participants : list address;
    sizeOnly : bool; timestamp : uint256 }.
Definition zero : t := mk 0 0 [] false 0.
Definition with_id (v : uint256) (r : t) : t :=
  mk v (requester r) (participants r) (sizeOnly r) (timestamp r).
Definition with_requester (v : address) (r : t) : t :=
  mk (id r) v (participants r) (sizeOnly r) (timestamp r).
Definition with_participants (v : list address) (r : t) : t :=
  mk (id r) (requester r) v (sizeOnly r) (timestamp r).
Definition with_sizeOnly (v : bool) (r : t) : t :=
  mk (id r) (requester r) (participants r) v (timestamp r).
Definition with_timestamp (v : uint256) (r : t) : t :=
  mk (id r) (requester r) (participants r) (sizeOnly r) v.
End PSIRequest.

(** ** Contract storage *)

Record Storage : Type := mkStorage
  { setCount : uint256;
    ownerToSetId : gmap Z Z;
    encryptedSets : gmap Z EncryptedSet.t;
    psiRequests : gmap Z PSIRequest.t;
    psiResults : gmap Z (list byte) }.

Definition empty_storage : Storage := mkStorage 0 ∅ ∅ ∅ ∅.

(** Mapping reads, with the zero value for a key never written. *)
Definition ownerToSetId_at (s : Storage) (a : address) : uint256 :=
  default 0 (ownerToSetId s !! a).
Definition encryptedSets_at (s : Storage) (k : uint256) : EncryptedSet.t :=
  default EncryptedSet.zero (encryptedSets s !! k).
Definition psiRequests_at (s : Storage) (k : uint256) : PSIRequest.t :=
  default PSIRequest.zero (psiRequests s !! k).
Definition psiResults_at (s : Storage) (k : uint256) : list byte :=
  default [] (psiResults s !! k).

Definition set_setCount (v : uint256) (s : Storage) : Storage :=
  mkStorage v (ownerToSetId s) (encryptedSets s) (psiRequests s) (psiResults s).
Definition set_ownerToSetId (a : address) (v : uint256) (s : Storage) : Storage :=
  mkStorage (setCount s) (<[a := v]> (ownerToSetId s)) (encryptedSets s)
            (psiRequests s) (psiResults s).
(** A write through a storage pointer [encryptedSets[k]]. *)
Definition update_encryptedSet (k : uint256) (f : EncryptedSet.t -> EncryptedSet.t)
    (s : Storage) : Storage :=
  mkStorage (setCount s) (ownerToSetId s)
            (<[k := f (encryptedSets_at s k)]> (encryptedSets s))
            (psiRequests s) (psiResults s).
(** A write through a storage pointer [psiRequests[k]]. *)
Definition update_psiRequest (k : uint256) (f : PSIRequest.t -> PSIRequest.t)
    (s : Storage) : Storage :=
  mkStorage (setCount s) (ownerToSetId s) (encryptedSets s)
            (<[k := f (psiRequests_at s k)]> (psiRequests s)) (psiResults s).
Definition set_psiResult (k : uint256) (v : list byte) (s : Storage) : Storage :=
  mkStorage (setCount s) (ownerToSetId s) (encryptedSets s) (psiRequests s)
            (<[k := v]> (psiResults s)).

(** ** Events and the call environment *)

Inductive Event : Type :=
| EncryptedSetSubmitted (setId : uint256)
| PSIRequested (requestId : uint256)
| PSIResultReceived (requestId : uint256).

(** What a call leaves behind besides storage: emitted events, and the
    computations handed to the FHE engine (handles, callback selector and the
    token the engine answered with). *)
Inductive Effect : Type :=
| Emit (e : Event)
| Dispatch (handles : list bytes32) (selector : bytes4) (token : uint256).

Record Env : Type := mkEnv { msg_sender : address; block_timestamp : uint256 }.

(** ** ABI packing *)

Definition byte_of_Z (z : Z) : byte :=
  default x00 (Byte.of_N (Z.to_N (z mod 256))).

(** The [n] low bytes of [v], most significant first. *)
Fixpoint be_bytes (n : nat) (v : Z) : list byte :=
  match n with
  | O => []
  | S k => byte_of_Z (Z.shiftr v (8 * Z.of_nat k)) :: be_bytes k v
  end.

(** [abi.encodePacked(address, uint256, address[])]: 20 bytes, 32 bytes, and
    every array element padded to 32 bytes. *)
Definition abi_encodePacked (sender : address) (now : uint256)
    (participants : list address) : list byte :=
  be_bytes 20 sender ++ be_bytes 32 now ++ flat_map (be_bytes 32) participants.

(** ** External collaborators

    The FHE library and [keccak256] are no part of the repository.  The engine
    has a state of its own from which it mints tokens; checking a proof reads
    that state and depends on nothing but the three arguments the contract
    passes. *)
Class Externals : Type := mkExternals
  { Engine : Type;
    FHE_requestComputation : Engine -> list bytes32 -> bytes4 -> Engine * uint256;
    FHE_checkSignatures : Engine -> uint256 -> list byte -> list byte -> bool;
    keccak256 : list byte -> bytes32 }.

(** The world a call runs in: contract storage, the engine's state, and
    the effects logged so far. *)
Record WorldOf (E : Type) : Type := mkWorld
  { storage : Storage; engine : E; log : list Effect }.

Arguments mkWorld {E} _ _ _.
Arguments storage {E} _.
Arguments engine {E} _.
Arguments log {E} _.

Section Contract.

Context {ext : Externals}.

Abbreviation World := (WorldOf Engine).

(** ** The execution monad: world passing with reverts *)

Definition M (A : Type) : Type := World -> Revert + (A * World).

Definition ret {A} (a : A) : M A := fun w => inr (a, w).

Definition bind {A B} (m : M A) (k : A -> M B) : M B :=
  fun w => match m w with
           | inl e => inl e
           | inr (a, w') => k a w'
           end.

Definition revert {A} (e : Revert) : M A := fun _ => inl e.

Notation "x <- c1 ;; c2" := (bind c1 (fun x => c2))
  (at level 100, c1 at next level, right associativity).
Notation "c1 ;; c2" := (bind c1 (fun _ => c2))
  (at level 100, right associativity).

Definition require (cond : bool) (reason : string) : M unit :=
  if cond then ret tt else revert (Error reason).

Definition gets {A} (f : Storage -> A) : M A :=
  fun w => inr (f (storage w), w).

Definition modify (f : Storage -> Storage) : M unit :=
  fun w => inr (tt, mkWorld (f (storage w)) (engine w) (log w)).

Definition emit (e : Event) : M unit :=
  fun w => inr (tt, mkWorld (storage w) (engine w) (log w ++ [Emit e])).

(** Checked [a + b] on [uint256]. *)
Definition checked_add (a b : uint256) : M uint256 :=
  if a + b <=? MAX_UINT256 then ret (a + b) else revert (Panic PANIC_OVERFLOW).

(** [arr[i]] on a memory or storage array. *)
Definition index {A} (arr : list A) (i : nat) : M A :=
  match arr !! i with
  | Some x => ret x
  | None => revert (Panic PANIC_INDEX)
  end.

(** [arr[i] = x] on a memory array. *)
Definition store_index {A} (arr : list A) (i : uint256) (x : A) : M (list A) :=
  if i <? Z.of_nat (length arr) then ret (<[Z.to_nat i := x]> arr)
  else revert (Panic PANIC_INDEX).

(** [for (uint k = i; k < i + count; k++) acc = body k acc]. *)
Fixpoint for_range {S} (i count : nat) (body : nat -> S -> M S) (acc : S) : M S :=
  match count with
  | O => ret acc
  | Datatypes.S c => acc' <- body i acc ;; for_range (Datatypes.S i) c body acc'
  end.

(** [FHE.requestComputation(handles, selector)]. *)
Definition requestComputation (handles : list bytes32) (selector : bytes4) : M uint256 :=
  fun w => let (e', token) := FHE_requestComputation (engine w) handles selector in
           inr (token, mkWorld (storage w) e' (log w ++ [Dispatch handles selector token])).

(** [FHE.checkSignatures(requestId, result, proof)]: reverts on a bad proof. *)
Definition checkSignatures (requestId : uint256) (result proof : list byte) : M unit :=
  fun w => if FHE_checkSignatures (engine w) requestId result proof
           then inr (tt, w) else inl InvalidSignatures.

(** [this.receivePSIResult.selector]: the four leading bytes of the hash of
    the signature. *)
Definition receivePSIResult_selector : bytes4 :=
  Z.shiftr (keccak256 (list_byte_of_string "receivePSIResult(uint256,bytes,bytes)")) 224.

(** ** Entry points *)

(** [modifier onlyOwnerOfSet(uint256 setId)]; declared, used by no function. *)
Definition onlyOwnerOfSet (env : Env) (setId : uint256) : M unit :=
  o <- gets (fun s => EncryptedSet.owner (encryptedSets_at s setId)) ;;
  require (o =? msg_sender env) "Not owner".

Definition submitEncryptedSet (env : Env) (items : list bytes32) : M unit :=
  c <- gets setCount ;;
  c' <- checked_add c 1 ;;
  modify (set_setCount c') ;;
  newId <- gets setCount ;;
  modify (update_encryptedSet newId (EncryptedSet.with_id newId)) ;;
  modify (update_encryptedSet newId (EncryptedSet.with_owner (msg_sender env))) ;;
  modify (update_encryptedSet newId (EncryptedSet.with_timestamp (block_timestamp env))) ;;
  for_range 0 (length items) (fun i _ =>
    x <- index items i ;;
    modify (update_encryptedSet newId (EncryptedSet.push x))) tt ;;
  modify (set_ownerToSetId (msg_sender env) newId) ;;
  emit (EncryptedSetSubmitted newId).

(** First loop of [requestMultiPSI]: every participant has a set, and the
    item counts add up. *)
Definition count_items (participants : list address) : M uint256 :=
  for_range 0 (length participants) (fun i totalItems =>
    p <- index participants i ;;
    sid <- gets (fun s => ownerToSetId_at s p) ;;
    require (negb (sid =? 0)) "Participant missing set" ;;
    n <- gets (fun s => Z.of_nat (length (EncryptedSet.items (encryptedSets_at s sid)))) ;;
    checked_add totalItems n) 0.

(** Inner loop: copy one stored item list into the memory array at [idx]. *)
Definition copy_items (items : list bytes32) (acc : list bytes32 * uint256)
    : M (list bytes32 * uint256) :=
  for_range 0 (length items) (fun j acc =>
    x <- index items j ;;
    all <- store_index (fst acc) (snd acc) x ;;
    idx <- checked_add (snd acc) 1 ;;
    ret (all, idx)) acc.

(** [new bytes32[](n)]: a zeroed memory array; a length above 2^64-1
    panics with 0x41. *)
Definition allocate (n : uint256) : M (list bytes32) :=
  if n <=? MAX_ARRAY_LENGTH then ret (replicate (Z.to_nat n) 0)
  else revert (Panic PANIC_ALLOC).

(** The allocation and the second loop: fill the memory array participant
    by participant. *)
Definition gather_items (participants : list address) (totalItems : uint256)
    : M (list bytes32) :=
  allCiphertexts <- allocate totalItems ;;
  acc <- for_range 0 (length participants) (fun i acc =>
      p <- index participants i ;;
      sid <- gets (fun s => ownerToSetId_at s p) ;;
      items <- gets (fun s => EncryptedSet.items (encryptedSets_at s sid)) ;;
      copy_items items acc)
    (allCiphertexts, 0) ;;
  ret (fst acc).

Definition requestMultiPSI (env : Env) (participants : list address) (sizeOnly : bool)
    : M uint256 :=
  require (2 <=? Z.of_nat (length participants)) "Need >=2 participants" ;;
  let reqId := keccak256
    (abi_encodePacked (msg_sender env) (block_timestamp env) participants) in
  modify (update_psiRequest reqId (PSIRequest.with_id reqId)) ;;
  modify (update_psiRequest reqId (PSIRequest.with_requester (msg_sender env))) ;;
  modify (update_psiRequest reqId (PSIRequest.with_participants participants)) ;;
  modify (update_psiRequest reqId (PSIRequest.with_sizeOnly sizeOnly)) ;;
  modify (update_psiRequest reqId (PSIRequest.with_timestamp (block_timestamp env))) ;;
  totalItems <- count_items participants ;;
  allCiphertexts <- gather_items participants totalItems ;;
  fheReq <- requestComputation allCiphertexts receivePSIResult_selector ;;
  r <- gets (fun s => psiRequests_at s reqId) ;;
  modify (update_psiRequest fheReq (fun _ => r)) ;;
  emit (PSIRequested reqId) ;;
  ret reqId.

Definition receivePSIResult (env : Env) (requestId : uint256)
    (encryptedResult proof : list byte) : M unit :=
  checkSignatures requestId encryptedResult proof ;;
  modify (set_psiResult requestId encryptedResult) ;;
  emit (PSIResultReceived requestId).

(** ** Views *)

Definition getEncryptedPSIResult (w : World) (requestId : uint256) : list byte :=
  psiResults_at (storage w) requestId.

Definition getSetId (w : World) (owner : address) : uint256 :=
  ownerToSetId_at (storage w) owner.

Definition getEncryptedSetItems (w : World) (setId : uint256) : list bytes32 :=
  EncryptedSet.items (encryptedSets_at (storage w) setId).

(** ** Transactions *)

Inductive Call : Type :=
| SubmitEncryptedSet (items : list bytes32)
| RequestMultiPSI (participants : list address) (sizeOnly : bool)
| ReceivePSIResult (requestId : uint256) (encryptedResult proof : list byte).

(** An external call and the words of its return data: only
    [requestMultiPSI] declares a return value. *)
Definition call (env : Env) (c : Call) : M (list uint256) :=
  match c with
  | SubmitEncryptedSet items => submitEncryptedSet env items ;; ret []
  | RequestMultiPSI participants sizeOnly =>
      reqId <- requestMultiPSI env participants sizeOnly ;; ret [reqId]
  | ReceivePSIResult requestId encryptedResult proof =>
      receivePSIResult env requestId encryptedResult proof ;; ret []
  end.

(** The world after a transaction: a revert rolls everything back. *)
Definition execute (env : Env) (c : Call) (w : World) : World :=
  match call env c w with
  | inl _ => w
  | inr (_, w') => w'
  end.

Definition initial (e : Engine) : World := mkWorld empty_storage e [].

(** Worlds the deployed contract can be in: successful calls from the fresh
    deployment on, with the engine free to move on its own in between. *)
Inductive reachable : World -> Prop :=
| reachable_initial e : reachable (initial e)
| reachable_call w env c data w' :
    reachable w -> call env c w = inr (data, w') -> reachable w'
| reachable_engine w e :
    reachable w -> reachable (mkWorld (storage w) e (log w)).

End Contract.

Abbreviation World := (WorldOf Engine).

Notation "x <- c1 ;; c2" := (bind c1 (fun x => c2))
  (at level 100, c1 at next level, right associativity).
Notation "c1 ;; c2" := (bind c1 (fun _ => c2))
  (at level 100, right associativity).

(** ** Specification-side definitions

    List-recursive counterparts of the contract's index loops, used to state
    and prove what the loops compute. *)

Section Reference.

Context {ext : Externals}.

(** A loop over the elements of a list, by recursion on the list. *)
Fixpoint foldM {A S} (body : A -> S -> M S) (l : list A) (acc : S) : M S :=
  match l with
  | [] => ret acc
  | x :: l' => acc' <- body x acc ;; foldM body l' acc'
  end.

(** The items of the set the owner pointer of [p] designates. *)
Definition current_items (s : Storage) (p : address) : list bytes32 :=
  EncryptedSet.items (encryptedSets_at s (ownerToSetId_at s p)).

(** What the first loop of [requestMultiPSI] computes from [total] on. *)
Fixpoint count_pure (s : Storage) (participants : list address) (total : uint256)
    : Revert + uint256 :=
  match participants with
  | [] => inr total
  | p :: rest =>
      if ownerToSetId_at s p =? 0 then inl (Error "Participant missing set")
      else if total + Z.of_nat (length (current_items s p)) <=? MAX_UINT256
           then count_pure s rest (total + Z.of_nat (length (current_items s p)))
           else inl (Panic PANIC_OVERFLOW)
  end.

(** The request record [requestMultiPSI] writes. *)
Definition new_request (env : Env) (participants : list address) (sizeOnly : bool)
    : PSIRequest.t :=
  PSIRequest.mk
    (keccak256 (abi_encodePacked (msg_sender env) (block_timestamp env) participants))
    (msg_sender env) participants sizeOnly (block_timestamp env).

(** Storage after a successful [requestMultiPSI]: the record sits under the
    derived id and under the engine's token. *)
Definition requested_storage (s : Storage) (token : uint256) (r : PSIRequest.t)
    : Storage :=
  mkStorage (setCount s) (ownerToSetId s) (encryptedSets s)
            (<[token := r]> (<[PSIRequest.id r := r]> (psiRequests s)))
            (psiResults s).

(** All of [xs] pushed onto a stored set, one by one. *)
Definition push_all (xs : list bytes32) (r : EncryptedSet.t) : EncryptedSet.t :=
  EncryptedSet.mk (EncryptedSet.id r) (EncryptedSet.owner r)
                  (EncryptedSet.items r ++ xs) (EncryptedSet.timestamp r).

(** Storage after a successful [submitEncryptedSet]. *)
Definition submitted_storage (env : Env) (items : list bytes32) (s : Storage) : Storage :=
  let newId := setCount s + 1 in
  mkStorage newId
            (<[msg_sender env := newId]> (ownerToSetId s))
            (<[newId := EncryptedSet.mk newId (msg_sender env)
                          (EncryptedSet.items (encryptedSets_at s newId) ++ items)
                          (block_timestamp env)]> (encryptedSets s))
            (psiRequests s) (psiResults s).

(** Set ids announced so far in the event log. *)
Definition submitted_ids (l : list Effect) : list uint256 :=
  flat_map (fun e => match e with
                     | Emit (EncryptedSetSubmitted k) => [k]
                     | _ => []
                     end) l.

(** Every id in use (a stored set, an owner pointer, an announced id) lies
    between 1 and the counter. *)
Definition ids_bounded (w : World) : Prop :=
  0 <= setCount (storage w) <= MAX_UINT256
  /\ (forall k r, encryptedSets (storage w) !! k = Some r -> 1 <= k <= setCount (storage w))
  /\ (forall o k, ownerToSetId (storage w) !! o = Some k -> 1 <= k <= setCount (storage w))
  /\ (forall k, In k (submitted_ids (log w)) -> 1 <= k <= setCount (storage w)).

(** Handle sequences handed to the engine so far. *)
Definition dispatched (l : list Effect) : list (list bytes32) :=
  flat_map (fun e => match e with
                     | Dispatch handles _ _ => [handles]
                     | _ => []
                     end) l.

End Reference.

(** ** A concrete instance, for running the model

    The engine numbers its requests from its state on, accepts exactly the
    non-empty proofs, and the hash is a polynomial checksum. *)

Definition toy_hash (bs : list byte) : bytes32 :=
  fold_left (fun acc b => (acc * 257 + Z.of_N (Byte.to_N b) + 1) mod 2 ^ 256) bs 0.

Definition toy : Externals :=
  mkExternals Z
    (fun e _ _ => (e + 1, e))
    (fun _ _ _ proof => match proof with [] => false | _ => true end)
    toy_hash.

Definition alice : address := 10.
Definition bob : address := 11.
Definition carol : address := 12.

Definition at_alice : Env := mkEnv alice 1000.
Definition at_bob : Env := mkEnv bob 1001.
Definition at_carol : Env := mkEnv carol 1002.

(** Alice has submitted three items, then Bob four. *)
Definition world0 : WorldOf (@Engine toy) := initial (ext := toy) 500.
Definition world1 : WorldOf (@Engine toy) :=
  execute (ext := toy) at_alice (SubmitEncryptedSet [31; 32; 33]) world0.
Definition world2 : WorldOf (@Engine toy) :=
  execute (ext := toy) at_bob (SubmitEncryptedSet [41; 42; 43; 44]) world1.
(** Carol has then requested the intersection of Alice's and Bob's sets. *)
Definition world3 : WorldOf (@Engine toy) :=
  execute (ext := toy) at_carol (RequestMultiPSI [alice; bob] true) world2.

Definition sample_result : list byte := [x02].
Definition other_result : list byte := [x03].
Definition good_proof : list byte := [x01].
Definition bad_proof : list byte := [].

(** The id Carol's request got, and the token the engine gave it. *)
Definition carol_request_id : uint256 :=
  toy_hash (abi_encodePacked carol 1002 [alice; bob]).
Definition carol_token : uint256 := 500.

(** The engine then calls back under its token, twice, with different
    payloads. *)
Definition world4 : WorldOf (@Engine toy) :=
  execute (ext := toy) at_bob (ReceivePSIResult carol_token sample_result good_proof) world3.
Definition world5 : WorldOf (@Engine toy) :=
  execute (ext := toy) at_alice (ReceivePSIResult carol_token other_result good_proof) world4.

(** The first callback once more, unchanged. *)
Definition world_replay : WorldOf (@Engine toy) :=
  execute (ext := toy) at_carol (ReceivePSIResult carol_token sample_result good_proof) world4.


(** Alice asks for the intersection of her own set with itself. *)
Definition world_twice : WorldOf (@Engine toy) :=
  execute (ext := toy) at_alice (RequestMultiPSI [alice; alice] false) world2.

(** Alice's second submission, a later block. *)
Definition at_alice_later : Env := mkEnv alice 2000.

(** What Alice's first submission stored. *)
Definition alice_set : EncryptedSet.t := EncryptedSet.mk 1 alice [31; 32; 33] 1000.

(** ** Reading packed bytes back

    The number a big-endian byte string stands for. *)

Definition be_value (bs : list byte) : Z :=
  fold_left (fun acc b => acc * 256 + Z.of_N (Byte.to_N b)) bs 0.

(** An [address] fits in 160 bits, a [uint256] in 256. *)
Definition is_address (a : Z) : Prop := 0 <= a < 2 ^ 160.
Definition is_uint256 (v : Z) : Prop := 0 <= v < 2 ^ 256.

(** ** Histories

    How one world of the contract leads to a later one. *)

Section Histories.

Context {ext : Externals}.

(** [evolves w w']: [w'] comes after [w] through successful calls, with the
    engine free to move in between. *)
Inductive evolves : World -> World -> Prop :=
| evolves_refl w : evolves w w
| evolves_call w w1 env c data w2 :
    evolves w w1 -> call env c w1 = inr (data, w2) -> evolves w w2
| evolves_engine w w1 e :
    evolves w w1 -> evolves w (mkWorld (storage w1) e (log w1)).

(** Request ids announced so far in the event log. *)
Definition requested_ids (l : list Effect) : list uint256 :=
  flat_map (fun e => match e with
                     | Emit (PSIRequested k) => [k]
                     | _ => []
                     end) l.

(** Ids for which a result was accepted so far. *)
Definition received_ids (l : list Effect) : list uint256 :=
  flat_map (fun e => match e with
                     | Emit (PSIResultReceived k) => [k]
                     | _ => []
                     end) l.


End Histories.

(** ** A second instance: an engine that keeps track of its tokens

    The engine's state is the list of the tokens it has issued; it accepts a
    callback only for one of these, with a non-empty proof. *)



(** * Properties *)

Section Properties.

Context {ext : Externals}.

Implicit Types (w : World) (s : Storage) (env : Env).

(** ** The monad *)

Lemma bind_inr {A B} (m : M A) (k : A -> M B) w b w' :
  bind m k w = inr (b, w') ->
  exists a w1, m w = inr (a, w1) /\ k a w1 = inr (b, w').
Proof.
  unfold bind. destruct (m w) as [e | [a w1]]; [discriminate |].
  intros Hk. exists a, w1. split; [reflexivity | exact Hk].
Qed.

Lemma bind_step {A B} (m : M A) (k : A -> M B) w a w1 :
  m w = inr (a, w1) -> bind m k w = k a w1.
Proof. intros Hm. unfold bind. rewrite Hm. reflexivity. Qed.

Lemma bind_fail {A B} (m : M A) (k : A -> M B) w e :
  m w = inl e -> bind m k w = inl e.
Proof. intros Hm. unfold bind. rewrite Hm. reflexivity. Qed.

(** ** Index loops are list loops *)

Lemma for_range_foldM {A S} (body : A -> S -> M S) (l pre : list A) (acc : S) w :
  for_range (length pre) (length l)
    (fun i a => x <- index (pre ++ l) i ;; body x a) acc w
  = foldM body l acc w.
Proof.
  revert pre acc w. induction l as [| x l IH]; intros pre acc w; [reflexivity |].
  cbn [length for_range foldM].
  assert (Hidx : index (pre ++ x :: l) (length pre) w = inr (x, w)).
  { unfold index. rewrite list_lookup_middle by reflexivity. reflexivity. }
  unfold bind. rewrite Hidx.
  destruct (body x acc w) as [e | [acc' w1]]; [reflexivity |].
  specialize (IH (pre ++ [x]) acc' w1).
  rewrite length_app, <- app_assoc in IH. cbn in IH.
  replace (length pre + 1)%nat with (Datatypes.S (length pre)) in IH by lia.
  exact IH.
Qed.

Lemma for_range_list {A S} (body : A -> S -> M S) (l : list A) (acc : S) w :
  for_range 0 (length l) (fun i a => x <- index l i ;; body x a) acc w
  = foldM body l acc w.
Proof. exact (for_range_foldM body l [] acc w). Qed.

(** ** The counting loop *)

Local Abbreviation count_body := (fun (p : address) (totalItems : uint256) =>
  sid <- gets (fun s => ownerToSetId_at s p) ;;
  require (negb (sid =? 0)) "Participant missing set" ;;
  n <- gets (fun s => Z.of_nat (length (EncryptedSet.items (encryptedSets_at s sid)))) ;;
  checked_add totalItems n).

Lemma foldM_count_pure participants total w :
  foldM count_body participants total w
  = match count_pure (storage w) participants total with
    | inl e => inl e
    | inr t => inr (t, w)
    end.
Proof.
  revert total. induction participants as [| p rest IH]; intros total; [reflexivity |].
  cbn [foldM count_pure]. unfold bind at 1 2, gets at 1. cbn [fst snd].
  destruct (ownerToSetId_at (storage w) p =? 0) eqn:Hsid; cbn; [reflexivity |].
  unfold bind at 1, gets at 1, checked_add, current_items.
  destruct (_ <=? MAX_UINT256); cbn; [apply IH | reflexivity].
Qed.

Lemma count_items_pure participants w :
  count_items participants w
  = match count_pure (storage w) participants 0 with
    | inl e => inl e
    | inr total => inr (total, w)
    end.
Proof.
  unfold count_items. rewrite (for_range_list count_body). apply foldM_count_pure.
Qed.

Lemma count_pure_inr s participants total t :
  count_pure s participants total = inr t ->
  Forall (fun p => ownerToSetId_at s p <> 0) participants
  /\ t = total + Z.of_nat (length (flat_map (current_items s) participants))
  /\ (total <= MAX_UINT256 -> t <= MAX_UINT256).
Proof.
  revert total. induction participants as [| p rest IH]; intros total; cbn.
  - intros [= <-]. repeat split; [constructor | lia | lia].
  - destruct (ownerToSetId_at s p =? 0) eqn:Hsid; [discriminate |].
    destruct (_ <=? MAX_UINT256) eqn:Hle; [| discriminate].
    intros H. apply IH in H as (Hall & -> & Hmax). repeat split.
    + constructor; [lia | exact Hall].
    + rewrite length_app. lia.
    + intros _. apply Hmax. lia.
Qed.

Lemma count_pure_total s participants total :
  Forall (fun p => ownerToSetId_at s p <> 0) participants ->
  total + Z.of_nat (length (flat_map (current_items s) participants)) <= MAX_UINT256 ->
  count_pure s participants total
  = inr (total + Z.of_nat (length (flat_map (current_items s) participants))).
Proof.
  revert total. induction participants as [| p rest IH]; intros total Hall Hmax; cbn.
  - f_equal. lia.
  - inversion Hall as [| ? ? Hp Hrest]; subst.
    cbn in Hmax. rewrite length_app in Hmax.
    destruct (ownerToSetId_at s p =? 0) eqn:Hsid; [lia |].
    destruct (_ <=? MAX_UINT256) eqn:Hle; [| lia].
    rewrite IH by (try assumption; lia). f_equal. rewrite length_app. lia.
Qed.

(** ** The copying loops *)

Local Abbreviation copy_body := (fun (x : bytes32) (acc : list bytes32 * uint256) =>
  all <- store_index (fst acc) (snd acc) x ;;
  idx <- checked_add (snd acc) 1 ;;
  ret (all, idx)).

(** Copying [items] into an array whose first [length filled] cells are
    already written overwrites the next [length items] cells. *)
Lemma foldM_copy (items filled rest : list bytes32) w :
  (length items <= length rest)%nat ->
  Z.of_nat (length filled + length rest) <= MAX_UINT256 ->
  foldM copy_body items (filled ++ rest, Z.of_nat (length filled)) w
  = inr ((filled ++ items ++ drop (length items) rest,
          Z.of_nat (length filled + length items)), w).
Proof.
  revert filled rest. induction items as [| x items IH]; intros filled rest Hlen Hmax.
  - cbn. rewrite drop_0, Nat.add_0_r. reflexivity.
  - destruct rest as [| y rest]; cbn [length] in Hlen; [lia |].
    cbn [foldM fst snd]. unfold bind at 1 2, store_index.
    rewrite length_app. cbn [length].
    destruct (_ <? _) eqn:Hlt; [| apply Z.ltb_ge in Hlt; lia]. cbn.
    unfold bind at 1, checked_add.
    cbn [length] in Hmax.
    destruct (_ <=? MAX_UINT256) eqn:Hle; [| lia]. cbn.
    rewrite Nat2Z.id.
    replace (<[length filled := x]> (filled ++ y :: rest))
      with ((filled ++ [x]) ++ rest).
    2:{ rewrite <- app_assoc. cbn.
        rewrite (insert_app_r_alt filled (y :: rest) (length filled)) by lia.
        rewrite Nat.sub_diag. reflexivity. }
    replace (Z.of_nat (length filled) + 1) with (Z.of_nat (length (filled ++ [x])))
      by (rewrite length_app; cbn; lia).
    rewrite IH by (rewrite ?length_app; cbn; lia).
    rewrite <- app_assoc, length_app. cbn.
    do 3 f_equal. lia.
Qed.

Lemma copy_items_spec (items filled rest : list bytes32) w :
  (length items <= length rest)%nat ->
  Z.of_nat (length filled + length rest) <= MAX_UINT256 ->
  copy_items items (filled ++ rest, Z.of_nat (length filled)) w
  = inr ((filled ++ items ++ drop (length items) rest,
          Z.of_nat (length filled + length items)), w).
Proof.
  intros Hlen Hmax. unfold copy_items.
  rewrite (for_range_list copy_body). apply foldM_copy; assumption.
Qed.

Local Abbreviation gather_body := (fun (p : address) (acc : list bytes32 * uint256) =>
  sid <- gets (fun s => ownerToSetId_at s p) ;;
  items <- gets (fun s => EncryptedSet.items (encryptedSets_at s sid)) ;;
  copy_items items acc).

Lemma foldM_gather participants (filled rest : list bytes32) w :
  (length (flat_map (current_items (storage w)) participants) <= length rest)%nat ->
  Z.of_nat (length filled + length rest) <= MAX_UINT256 ->
  foldM gather_body participants (filled ++ rest, Z.of_nat (length filled)) w
  = inr ((filled ++ flat_map (current_items (storage w)) participants
            ++ drop (length (flat_map (current_items (storage w)) participants)) rest,
          Z.of_nat (length filled
                    + length (flat_map (current_items (storage w)) participants))), w).
Proof.
  revert filled rest.
  induction participants as [| p ps IH]; intros filled rest Hlen Hmax.
  - cbn. rewrite drop_0, Nat.add_0_r. reflexivity.
  - cbn [flat_map] in *. rewrite length_app in Hlen.
    cbn [foldM]. unfold bind at 1 2 3, gets. cbn [fst snd].
    fold (current_items (storage w) p).
    rewrite copy_items_spec by lia.
    set (it := current_items (storage w) p) in *.
    set (more := flat_map (current_items (storage w)) ps) in *.
    replace (filled ++ it ++ drop (length it) rest)
      with ((filled ++ it) ++ drop (length it) rest) by (rewrite <- app_assoc; reflexivity).
    replace (length filled + length it)%nat with (length (filled ++ it))
      by (rewrite length_app; reflexivity).
    rewrite IH.
    + rewrite drop_drop, <- !app_assoc, !length_app. do 3 f_equal. lia.
    + rewrite length_drop. lia.
    + rewrite length_app, length_drop. lia.
Qed.

(** The array handed over is the concatenation of the participants' item
    lists, provided the first loop computed its length and the allocation
    accepts it. *)
Lemma gather_items_spec participants w :
  Z.of_nat (length (flat_map (current_items (storage w)) participants))
    <= MAX_ARRAY_LENGTH ->
  gather_items participants
    (Z.of_nat (length (flat_map (current_items (storage w)) participants))) w
  = inr (flat_map (current_items (storage w)) participants, w).
Proof.
  intros Hmax. unfold gather_items, allocate.
  destruct (_ <=? MAX_ARRAY_LENGTH) eqn:Hle; [| apply Z.leb_gt in Hle; lia].
  unfold bind at 1. cbn [ret].
  unfold bind at 1. rewrite (for_range_list gather_body).
  rewrite Nat2Z.id.
  set (n := length (flat_map (current_items (storage w)) participants)) in *.
  pose proof (foldM_gather participants [] (replicate n 0) w) as H.
  cbn [app length Nat.add] in H. change (Z.of_nat 0) with 0 in H.
  assert (Hwide : MAX_ARRAY_LENGTH <= MAX_UINT256)
    by (unfold MAX_ARRAY_LENGTH, MAX_UINT256; lia).
  rewrite H by (rewrite ?length_replicate; fold n; lia).
  fold n. rewrite drop_ge by (rewrite length_replicate; lia).
  rewrite app_nil_r. reflexivity.
Qed.

(** A total above the longest array makes the allocation panic. *)
Lemma gather_items_too_long participants total w :
  MAX_ARRAY_LENGTH < total ->
  gather_items participants total w = inl (Panic PANIC_ALLOC).
Proof.
  intros Hlong. unfold gather_items, allocate.
  destruct (_ <=? MAX_ARRAY_LENGTH) eqn:Hle; [apply Z.leb_le in Hle; lia |].
  reflexivity.
Qed.

(** ** [requestMultiPSI], in closed form *)

Lemma count_pure_ext s s' participants total :
  ownerToSetId s = ownerToSetId s' -> encryptedSets s = encryptedSets s' ->
  count_pure s participants total = count_pure s' participants total.
Proof.
  intros Ho Hs. revert total.
  induction participants as [| p rest IH]; intros total; [reflexivity |].
  cbn. unfold current_items, ownerToSetId_at, encryptedSets_at.
  rewrite Ho, Hs. destruct (_ =? 0); [reflexivity |].
  destruct (_ <=? MAX_UINT256); [apply IH | reflexivity].
Qed.

Lemma current_items_ext s s' :
  ownerToSetId s = ownerToSetId s' -> encryptedSets s = encryptedSets s' ->
  forall participants,
    flat_map (current_items s) participants = flat_map (current_items s') participants.
Proof.
  intros Ho Hs participants. unfold current_items, ownerToSetId_at, encryptedSets_at.
  rewrite Ho, Hs. reflexivity.
Qed.

Lemma update_psiRequest_twice k f g s :
  update_psiRequest k g (update_psiRequest k f s)
  = update_psiRequest k (fun r => g (f r)) s.
Proof.
  unfold update_psiRequest, psiRequests_at. cbn.
  rewrite lookup_insert_eq, insert_insert_eq. reflexivity.
Qed.

Lemma requestMultiPSI_closed_form env participants sizeOnly w :
  requestMultiPSI env participants sizeOnly w
  = if 2 <=? Z.of_nat (length participants) then
      match count_pure (storage w) participants 0 with
      | inl e => inl e
      | inr total =>
          if total <=? MAX_ARRAY_LENGTH then
            let r := new_request env participants sizeOnly in
            let handles := flat_map (current_items (storage w)) participants in
            let out := FHE_requestComputation (engine w) handles receivePSIResult_selector in
            inr (PSIRequest.id r,
                 mkWorld (requested_storage (storage w) (snd out) r) (fst out)
                   (log w ++ [Dispatch handles receivePSIResult_selector (snd out);
                              Emit (PSIRequested (PSIRequest.id r))]))
          else inl (Panic PANIC_ALLOC)
      end
    else inl (Error "Need >=2 participants").
Proof.
  unfold requestMultiPSI.
  destruct (2 <=? Z.of_nat (length participants)); [| reflexivity].
  set (rid := keccak256 _).
  unfold bind at 1. cbn [require ret].
  do 5 (unfold bind at 1; unfold modify at 1; cbn [storage engine log]).
  rewrite !update_psiRequest_twice.
  set (s1 := update_psiRequest rid _ (storage w)).
  set (w1 := mkWorld s1 (engine w) (log w)).
  unfold bind at 1. rewrite count_items_pure.
  change (storage w1) with s1.
  rewrite (count_pure_ext s1 (storage w)) by reflexivity.
  destruct (count_pure (storage w) participants 0) as [e | total] eqn:Hcount;
    [reflexivity |].
  apply count_pure_inr in Hcount as (_ & -> & _).
  rewrite Z.add_0_l in *.
  rewrite <- (current_items_ext s1 (storage w)) in * by reflexivity.
  unfold bind at 1.
  destruct (_ <=? MAX_ARRAY_LENGTH) eqn:Halloc;
    [apply Z.leb_le in Halloc
    | apply Z.leb_gt in Halloc; rewrite gather_items_too_long by exact Halloc;
      reflexivity].
  change s1 with (storage w1) at 1 2.
  rewrite gather_items_spec by exact Halloc.
  change (storage w1) with s1.
  unfold bind at 1, requestComputation at 1.
  destruct (FHE_requestComputation _ _ _) as [e' token] eqn:Hout.
  cbn [storage engine log fst snd].
  unfold bind, gets, modify, emit, ret. cbn [storage engine log].
  rewrite (current_items_ext s1 (storage w)) by reflexivity.
  rewrite <- app_assoc. cbn [app].
  f_equal. f_equal. f_equal.
  unfold update_psiRequest, requested_storage, s1, update_psiRequest, psiRequests_at.
  cbn. rewrite lookup_insert_eq. reflexivity.
Qed.

(** ** [submitEncryptedSet] and [receivePSIResult], in closed form *)

Lemma update_encryptedSet_twice k f g s :
  update_encryptedSet k g (update_encryptedSet k f s)
  = update_encryptedSet k (fun r => g (f r)) s.
Proof.
  unfold update_encryptedSet, encryptedSets_at. cbn.
  rewrite lookup_insert_eq, insert_insert_eq. reflexivity.
Qed.

Lemma push_all_nil r : push_all [] r = r.
Proof. destruct r. unfold push_all. cbn. rewrite app_nil_r. reflexivity. Qed.

Lemma push_all_cons x xs r : push_all xs (EncryptedSet.push x r) = push_all (x :: xs) r.
Proof. unfold push_all, EncryptedSet.push. cbn. rewrite <- app_assoc. reflexivity. Qed.

Local Abbreviation push_body k := (fun (x : bytes32) (_ : unit) =>
  modify (update_encryptedSet k (EncryptedSet.push x))).

Lemma foldM_push k f items s e l :
  foldM (push_body k) items tt (mkWorld (update_encryptedSet k f s) e l)
  = inr (tt, mkWorld (update_encryptedSet k (fun r => push_all items (f r)) s) e l).
Proof.
  revert f. induction items as [| x items IH]; intros f.
  - cbn. unfold update_encryptedSet. rewrite push_all_nil. reflexivity.
  - cbn [foldM]. unfold bind, modify at 1. cbn [storage engine log].
    rewrite update_encryptedSet_twice, IH.
    unfold update_encryptedSet. rewrite push_all_cons. reflexivity.
Qed.

Lemma submitEncryptedSet_closed_form env items w :
  submitEncryptedSet env items w
  = if setCount (storage w) + 1 <=? MAX_UINT256 then
      inr (tt, mkWorld (submitted_storage env items (storage w)) (engine w)
                 (log w ++ [Emit (EncryptedSetSubmitted (setCount (storage w) + 1))]))
    else inl (Panic PANIC_OVERFLOW).
Proof.
  unfold submitEncryptedSet.
  unfold bind at 1, gets at 1. unfold bind at 1, checked_add.
  destruct (setCount (storage w) + 1 <=? MAX_UINT256); [| reflexivity].
  cbn [ret].
  unfold bind at 1, modify at 1. unfold bind at 1, gets at 1.
  cbn [storage engine log setCount set_setCount].
  set (newId := setCount (storage w) + 1).
  do 3 (unfold bind at 1; unfold modify at 1; cbn [storage engine log]).
  rewrite !update_encryptedSet_twice.
  unfold bind at 1. rewrite (for_range_list (push_body newId)), foldM_push.
  unfold bind, modify, emit. cbn [storage engine log].
  reflexivity.
Qed.

Lemma receivePSIResult_closed_form env requestId encryptedResult proof w :
  receivePSIResult env requestId encryptedResult proof w
  = if FHE_checkSignatures (engine w) requestId encryptedResult proof then
      inr (tt, mkWorld (set_psiResult requestId encryptedResult (storage w)) (engine w)
                 (log w ++ [Emit (PSIResultReceived requestId)]))
    else inl InvalidSignatures.
Proof.
  unfold receivePSIResult, bind, checkSignatures.
  destruct (FHE_checkSignatures _ _ _ _); reflexivity.
Qed.

(** ** Ids stay below the counter *)

Lemma submitted_ids_app l l' : submitted_ids (l ++ l') = submitted_ids l ++ submitted_ids l'.
Proof. apply flat_map_app. Qed.

Lemma dispatched_app l l' : dispatched (l ++ l') = dispatched l ++ dispatched l'.
Proof. apply flat_map_app. Qed.

Lemma ids_bounded_initial e : ids_bounded (initial e).
Proof.
  unfold ids_bounded, initial, MAX_UINT256. cbn.
  refine (conj _ (conj _ (conj _ _))).
  - lia.
  - intros k r Hk. rewrite lookup_empty in Hk. discriminate.
  - intros o k Hk. rewrite lookup_empty in Hk. discriminate.
  - intros k [].
Qed.

Lemma ids_bounded_call env c w data w' :
  ids_bounded w -> call env c w = inr (data, w') -> ids_bounded w'.
Proof.
  intros (Hcount & Hsets & Hown & Hlog) Hcall.
  destruct c as [items | participants sizeOnly | requestId encryptedResult proof];
    cbn [call] in Hcall; apply bind_inr in Hcall as (a & w1 & Hrun & Hret);
    injection Hret as <- <-.
  - rewrite submitEncryptedSet_closed_form in Hrun.
    destruct (_ <=? MAX_UINT256) eqn:Hle; [| discriminate].
    apply Z.leb_le in Hle.
    simplify_eq. unfold ids_bounded. cbn.
    refine (conj _ (conj _ (conj _ _))).
    + lia.
    + intros k r Hk. destruct (decide (setCount (storage w) + 1 = k)) as [<- | Hne]; [lia |].
      rewrite lookup_insert_ne in Hk by exact Hne. apply Hsets in Hk. lia.
    + intros o k Hk. destruct (decide (msg_sender env = o)) as [<- | Hne].
      * rewrite lookup_insert_eq in Hk. injection Hk as <-. lia.
      * rewrite lookup_insert_ne in Hk by exact Hne. apply Hown in Hk. lia.
    + intros k Hk. rewrite submitted_ids_app in Hk. apply in_app_or in Hk as [Hk | Hk].
      * apply Hlog in Hk. lia.
      * cbn in Hk. lia.
  - rewrite requestMultiPSI_closed_form in Hrun.
    destruct (2 <=? _); [| discriminate].
    destruct (count_pure _ _ _); [discriminate |].
    destruct (_ <=? MAX_ARRAY_LENGTH); [| discriminate].
    cbn zeta in Hrun. simplify_eq. unfold ids_bounded. cbn.
    refine (conj Hcount (conj Hsets (conj Hown _))).
    intros k Hk. rewrite submitted_ids_app in Hk. cbn in Hk.
    rewrite app_nil_r in Hk. exact (Hlog k Hk).
  - rewrite receivePSIResult_closed_form in Hrun.
    destruct (FHE_checkSignatures _ _ _ _); [| discriminate].
    simplify_eq. unfold ids_bounded. cbn.
    refine (conj Hcount (conj Hsets (conj Hown _))).
    intros k Hk. rewrite submitted_ids_app in Hk. cbn in Hk.
    rewrite app_nil_r in Hk. exact (Hlog k Hk).
Qed.

Lemma reachable_ids_bounded w : reachable w -> ids_bounded w.
Proof.
  induction 1 as [e | w env c data w' _ IH Hcall | w e _ IH].
  - apply ids_bounded_initial.
  - exact (ids_bounded_call env c w data w' IH Hcall).
  - exact IH.
Qed.

(** The ids announced so far are 1, 2, ..., [setCount], in this order. *)
Lemma reachable_submitted_ids w :
  reachable w ->
  0 <= setCount (storage w)
  /\ submitted_ids (log w) = map Z.of_nat (seq 1 (Z.to_nat (setCount (storage w)))).
Proof.
  induction 1 as [e | w env c data w' _ [Hpos IH] Hcall | w e _ IH].
  - cbn. split; [lia | reflexivity].
  - destruct c as [items | participants sizeOnly | requestId encryptedResult proof];
      cbn [call] in Hcall; apply bind_inr in Hcall as (a & w1 & Hrun & Hret);
      injection Hret as <- <-.
    + rewrite submitEncryptedSet_closed_form in Hrun.
      destruct (_ <=? MAX_UINT256); [| discriminate]. simplify_eq.
      cbn [storage log submitted_storage setCount]. split; [lia |].
      rewrite submitted_ids_app, IH. cbn [submitted_ids flat_map app].
      replace (Z.to_nat (setCount (storage w) + 1))
        with (Datatypes.S (Z.to_nat (setCount (storage w)))) by lia.
      rewrite seq_S, map_app. cbn [map]. do 2 f_equal. lia.
    + rewrite requestMultiPSI_closed_form in Hrun.
      destruct (2 <=? _); [| discriminate].
      destruct (count_pure _ _ _); [discriminate |].
      destruct (_ <=? MAX_ARRAY_LENGTH); [| discriminate].
      cbn zeta in Hrun. simplify_eq. cbn [storage log requested_storage setCount].
      split; [exact Hpos |]. rewrite submitted_ids_app. cbn. rewrite app_nil_r. exact IH.
    + rewrite receivePSIResult_closed_form in Hrun.
      destruct (FHE_checkSignatures _ _ _ _); [| discriminate]. simplify_eq.
      cbn [storage log set_psiResult setCount].
      split; [exact Hpos |]. rewrite submitted_ids_app. cbn. rewrite app_nil_r. exact IH.
  - exact IH.
Qed.

Lemma reachable_submitted_ids_NoDup w : reachable w -> NoDup (submitted_ids (log w)).
Proof.
  intros Hreach. destruct (reachable_submitted_ids w Hreach) as [_ ->].
  apply (NoDup_fmap_2 Z.of_nat), NoDup_ListNoDup, seq_NoDup.
Qed.

(** A reverted call leaves the world as it was. *)
Lemma execute_revert env c w e : call env c w = inl e -> execute env c w = w.
Proof. intros Hcall. unfold execute. rewrite Hcall. reflexivity. Qed.

(** With the counter at its maximum a submission panics. *)
Lemma submitEncryptedSet_counter_full env items w :
  setCount (storage w) = MAX_UINT256 ->
  submitEncryptedSet env items w = inl (Panic PANIC_OVERFLOW).
Proof.
  intros Hfull. rewrite submitEncryptedSet_closed_form, Hfull. reflexivity.
Qed.

(** ** The result callback *)

(** C1, as the contract has it: the commit is last-write-wins.  Two callbacks
    for the same [requestId] that both pass [FHE.checkSignatures] are both
    accepted; after the first the stored payload is its result, after the
    second it is the second's result, and each emits [PSIResultReceived].
    Replaying identical inputs leaves storage as the first commit left it. *)
Theorem receivePSIResult_last_write_wins env1 env2 requestId r1 p1 r2 p2 w :
  FHE_checkSignatures (engine w) requestId r1 p1 = true ->
  FHE_checkSignatures (engine w) requestId r2 p2 = true ->
  exists w1 w2,
    receivePSIResult env1 requestId r1 p1 w = inr (tt, w1)
    /\ receivePSIResult env2 requestId r2 p2 w1 = inr (tt, w2)
    /\ getEncryptedPSIResult w1 requestId = r1
    /\ getEncryptedPSIResult w2 requestId = r2
    /\ log w2 = log w ++ [Emit (PSIResultReceived requestId);
                          Emit (PSIResultReceived requestId)]
    /\ (r1 = r2 -> storage w2 = storage w1).
Proof.
  intros H1 H2.
  eexists _, _. rewrite receivePSIResult_closed_form, H1.
  split; [reflexivity |].
  rewrite receivePSIResult_closed_form. cbn [engine]. rewrite H2.
  split; [reflexivity |].
  unfold getEncryptedPSIResult, psiResults_at, set_psiResult. cbn.
  rewrite !lookup_insert_eq, insert_insert_eq, <- app_assoc. cbn.
  repeat split. intros ->. reflexivity.
Qed.

(** C3, as the contract has it: a callback whose proof is refused reverts,
    so no result is stored and the whole world, the request record included,
    stays as it was; the record has no status to change. *)
Theorem receivePSIResult_bad_proof_reverts env requestId encryptedResult proof w :
  FHE_checkSignatures (engine w) requestId encryptedResult proof = false ->
  receivePSIResult env requestId encryptedResult proof w = inl InvalidSignatures
  /\ execute env (ReceivePSIResult requestId encryptedResult proof) w = w.
Proof.
  intros Hbad.
  assert (Hrun : receivePSIResult env requestId encryptedResult proof w
                 = inl InvalidSignatures).
  { rewrite receivePSIResult_closed_form, Hbad. reflexivity. }
  split; [exact Hrun |].
  unfold execute, call. rewrite (bind_fail _ _ _ _ Hrun). reflexivity.
Qed.

(** C10: the callback is open to every caller.  Whoever calls, and at
    whatever time, the outcome (acceptance and resulting world) is the same,
    and the call is accepted exactly when the proof passes
    [FHE.checkSignatures]. *)
Theorem receivePSIResult_any_caller env1 env2 requestId encryptedResult proof w :
  receivePSIResult env1 requestId encryptedResult proof w
  = receivePSIResult env2 requestId encryptedResult proof w
  /\ execute env1 (ReceivePSIResult requestId encryptedResult proof) w
     = execute env2 (ReceivePSIResult requestId encryptedResult proof) w
  /\ ((exists w', receivePSIResult env1 requestId encryptedResult proof w = inr (tt, w'))
      <-> FHE_checkSignatures (engine w) requestId encryptedResult proof = true).
Proof.
  split; [| split].
  - rewrite !receivePSIResult_closed_form. reflexivity.
  - unfold execute, call, bind. rewrite !receivePSIResult_closed_form. reflexivity.
  - rewrite receivePSIResult_closed_form.
    destruct (FHE_checkSignatures _ _ _ _); split.
    + reflexivity.
    + intros _. eexists. reflexivity.
    + intros [w' H]. discriminate.
    + discriminate.
Qed.

(** ** Requesting a computation *)

Lemma requestMultiPSI_success env participants sizeOnly w reqId w' :
  requestMultiPSI env participants sizeOnly w = inr (reqId, w') ->
  reqId = PSIRequest.id (new_request env participants sizeOnly)
  /\ w' = mkWorld
      (requested_storage (storage w)
         (snd (FHE_requestComputation (engine w)
                 (flat_map (current_items (storage w)) participants)
                 receivePSIResult_selector))
         (new_request env participants sizeOnly))
      (fst (FHE_requestComputation (engine w)
              (flat_map (current_items (storage w)) participants)
              receivePSIResult_selector))
      (log w ++ [Dispatch (flat_map (current_items (storage w)) participants)
                   receivePSIResult_selector
                   (snd (FHE_requestComputation (engine w)
                           (flat_map (current_items (storage w)) participants)
                           receivePSIResult_selector));
                 Emit (PSIRequested (PSIRequest.id (new_request env participants sizeOnly)))]).
Proof.
  rewrite requestMultiPSI_closed_form.
  destruct (2 <=? _); [| discriminate].
  destruct (count_pure _ _ _); [discriminate |].
  destruct (_ <=? MAX_ARRAY_LENGTH); [| discriminate].
  cbn zeta. intros H. simplify_eq. split; reflexivity.
Qed.

(** C4: the id a successful [requestMultiPSI] returns is the hash of the
    packed encoding of the caller, the block timestamp and the participants;
    it is also the only word of the return data and the id announced by
    [PSIRequested]. *)
Theorem requestMultiPSI_returns_hash env participants sizeOnly w reqId w' :
  requestMultiPSI env participants sizeOnly w = inr (reqId, w') ->
  reqId = keccak256 (abi_encodePacked (msg_sender env) (block_timestamp env) participants)
  /\ call env (RequestMultiPSI participants sizeOnly) w = inr ([reqId], w')
  /\ last (log w') = Some (Emit (PSIRequested reqId)).
Proof.
  intros Hrun. pose proof (requestMultiPSI_success _ _ _ _ _ _ Hrun) as [-> ->].
  split; [reflexivity |]. split.
  - cbn [call]. rewrite (bind_step _ _ _ _ _ Hrun). reflexivity.
  - cbn [log]. rewrite last_app. reflexivity.
Qed.

(** C5: after a successful [requestMultiPSI] the request table holds the
    same record under the token the engine answered with and under the
    returned id. *)
Theorem requestMultiPSI_token_and_id_agree env participants sizeOnly w reqId w' :
  requestMultiPSI env participants sizeOnly w = inr (reqId, w') ->
  exists handles token,
    FHE_requestComputation (engine w) handles receivePSIResult_selector
      = (engine w', token)
    /\ In (Dispatch handles receivePSIResult_selector token) (log w')
    /\ psiRequests (storage w') !! token = Some (new_request env participants sizeOnly)
    /\ psiRequests (storage w') !! reqId = Some (new_request env participants sizeOnly)
    /\ psiRequests_at (storage w') token = psiRequests_at (storage w') reqId.
Proof.
  intros Hrun. pose proof (requestMultiPSI_success _ _ _ _ _ _ Hrun) as [-> ->].
  set (handles := flat_map (current_items (storage w)) participants).
  set (r := new_request env participants sizeOnly).
  set (out := FHE_requestComputation (engine w) handles receivePSIResult_selector).
  exists handles, (snd out). cbn [storage engine log].
  assert (Htoken : psiRequests (requested_storage (storage w) out.2 r) !! out.2 = Some r).
  { cbn. apply lookup_insert_eq. }
  assert (Hid : psiRequests (requested_storage (storage w) out.2 r) !! PSIRequest.id r
                = Some r).
  { cbn. destruct (decide (out.2 = PSIRequest.id r)) as [-> | Hne].
    - apply lookup_insert_eq.
    - rewrite lookup_insert_ne by exact Hne. apply lookup_insert_eq. }
  split; [apply surjective_pairing |].
  split; [apply in_or_app; right; left; reflexivity |].
  split; [exact Htoken |]. split; [exact Hid |].
  unfold psiRequests_at. rewrite Htoken, Hid. reflexivity.
Qed.

(** C6: the handle sequence a successful [requestMultiPSI] hands to the
    engine is the concatenation, in participant order, of the item lists of
    the participants' current sets; for two participants it is the first
    one's items followed by the second one's. *)
Theorem requestMultiPSI_dispatches_concatenation env participants sizeOnly w reqId w' :
  requestMultiPSI env participants sizeOnly w = inr (reqId, w') ->
  dispatched (log w')
  = dispatched (log w)
    ++ [flat_map (fun p => getEncryptedSetItems w (getSetId w p)) participants]
  /\ (forall a b, participants = [a; b] ->
      dispatched (log w')
      = dispatched (log w)
        ++ [getEncryptedSetItems w (getSetId w a) ++ getEncryptedSetItems w (getSetId w b)]).
Proof.
  intros Hrun. pose proof (requestMultiPSI_success _ _ _ _ _ _ Hrun) as [-> ->].
  assert (Hlog : forall token l,
    dispatched (log w ++ [Dispatch l receivePSIResult_selector token;
                          Emit (PSIRequested (PSIRequest.id
                                  (new_request env participants sizeOnly)))])
    = dispatched (log w) ++ [l]).
  { intros token l. rewrite dispatched_app. reflexivity. }
  cbn [log]. rewrite Hlog. split; [reflexivity |].
  intros a b ->. cbn [flat_map]. rewrite app_nil_r. reflexivity.
Qed.

(** ** Rejected requests *)

Lemma requestMultiPSI_too_few env participants sizeOnly w :
  (length participants < 2)%nat ->
  requestMultiPSI env participants sizeOnly w = inl (Error "Need >=2 participants").
Proof.
  intros Hlen. rewrite requestMultiPSI_closed_form.
  destruct (2 <=? Z.of_nat (length participants)) eqn:Hle; [| reflexivity].
  apply Z.leb_le in Hle. lia.
Qed.

Lemma count_pure_missing s participants total :
  Exists (fun p => ownerToSetId_at s p = 0) participants ->
  exists e,
    count_pure s participants total = inl e
    /\ (total + Z.of_nat (length (flat_map (current_items s) participants)) <= MAX_UINT256 ->
        e = Error "Participant missing set").
Proof.
  revert total. induction participants as [| p rest IH]; intros total Hmiss.
  - inversion Hmiss.
  - cbn [count_pure flat_map]. rewrite length_app.
    destruct (ownerToSetId_at s p =? 0) eqn:Hsid.
    + eexists. split; [reflexivity | intros _; reflexivity].
    + apply Z.eqb_neq in Hsid.
      destruct (_ <=? MAX_UINT256) eqn:Hle.
      * inversion Hmiss as [? ? Hp | ? ? Hrest]; subst; [contradiction |].
        destruct (IH (total + Z.of_nat (length (current_items s p))) Hrest)
          as (e & He & Hreason).
        exists e. split; [exact He |]. intros Hmax. apply Hreason. lia.
      * apply Z.leb_gt in Hle. eexists. split; [reflexivity |]. intros Hmax. lia.
Qed.

(** C8: a request with fewer than two participants, or naming a participant
    without a current set, is rejected, and the rejected call changes
    nothing.  The first case reports "Need >=2 participants"; the second
    reports "Participant missing set" (as long as the item counts met on the
    way fit in a [uint256]). *)
Theorem requestMultiPSI_rejection_atomic env participants sizeOnly w :
  (length participants < 2)%nat \/ Exists (fun p => getSetId w p = 0) participants ->
  (exists e,
     requestMultiPSI env participants sizeOnly w = inl e
     /\ ((length participants < 2)%nat -> e = Error "Need >=2 participants")
     /\ ((2 <= length participants)%nat ->
         Z.of_nat (length (flat_map (current_items (storage w)) participants))
           <= MAX_UINT256 ->
         e = Error "Participant missing set"))
  /\ execute env (RequestMultiPSI participants sizeOnly) w = w.
Proof.
  intros Hbad.
  assert (Hrej : exists e,
     requestMultiPSI env participants sizeOnly w = inl e
     /\ ((length participants < 2)%nat -> e = Error "Need >=2 participants")
     /\ ((2 <= length participants)%nat ->
         Z.of_nat (length (flat_map (current_items (storage w)) participants))
           <= MAX_UINT256 ->
         e = Error "Participant missing set")).
  { destruct (Nat.lt_ge_cases (length participants) 2) as [Hlt | Hge].
    - eexists. split; [apply requestMultiPSI_too_few; exact Hlt |].
      split; [reflexivity | lia].
    - destruct Hbad as [Hlt | Hmiss]; [lia |].
      destruct (count_pure_missing (storage w) participants 0 Hmiss) as (e & He & Hreason).
      exists e. rewrite requestMultiPSI_closed_form, He.
      destruct (2 <=? Z.of_nat (length participants)) eqn:Hle;
        [| apply Z.leb_gt in Hle; lia].
      split; [reflexivity |]. split; [lia |]. intros _ Hmax. apply Hreason. lia. }
  split; [exact Hrej |].
  destruct Hrej as (e & Hrun & _).
  unfold execute, call. rewrite (bind_fail _ _ _ _ Hrun). reflexivity.
Qed.

Lemma count_pure_all_have_sets s participants total e :
  Forall (fun p => ownerToSetId_at s p <> 0) participants ->
  count_pure s participants total = inl e -> e = Panic PANIC_OVERFLOW.
Proof.
  intros Hall. revert total. induction Hall as [| p rest Hp _ IH]; intros total; cbn.
  - discriminate.
  - destruct (ownerToSetId_at s p =? 0) eqn:Hsid; [apply Z.eqb_eq in Hsid; contradiction |].
    destruct (_ <=? MAX_UINT256); [apply IH | intros [= <-]; reflexivity].
Qed.

(** C7, as the contract has it: a single participant is always rejected with
    "Need >=2 participants"; a list naming the same participant twice is not
    rejected for the repetition: it fails with "Participant missing set" when
    that participant has no current set; when the participant has one, no
    [require] fails, and a call that succeeds hands the participant's items
    to the engine twice. *)
Theorem requestMultiPSI_single_and_duplicate env a sizeOnly w :
  requestMultiPSI env [a] sizeOnly w = inl (Error "Need >=2 participants")
  /\ (getSetId w a = 0 ->
      requestMultiPSI env [a; a] sizeOnly w = inl (Error "Participant missing set"))
  /\ (getSetId w a <> 0 ->
      (forall reason, requestMultiPSI env [a; a] sizeOnly w <> inl (Error reason))
      /\ (forall reqId w',
            requestMultiPSI env [a; a] sizeOnly w = inr (reqId, w') ->
            dispatched (log w')
            = dispatched (log w)
              ++ [getEncryptedSetItems w (getSetId w a)
                  ++ getEncryptedSetItems w (getSetId w a)])).
Proof.
  split; [apply requestMultiPSI_too_few; cbn; lia |].
  unfold getSetId, getEncryptedSetItems. split.
  - intros Hsid. rewrite requestMultiPSI_closed_form. cbn.
    rewrite Hsid. reflexivity.
  - intros Hsid. split.
    + intros reason. rewrite requestMultiPSI_closed_form.
      change (2 <=? Z.of_nat (length [a; a])) with true. cbn iota.
      destruct (count_pure (storage w) [a; a] 0) as [e | total] eqn:Hcount.
      * apply count_pure_all_have_sets in Hcount; [| repeat constructor; exact Hsid].
        rewrite Hcount. discriminate.
      * destruct (_ <=? MAX_ARRAY_LENGTH); discriminate.
    + intros reqId w' Hrun.
      pose proof (requestMultiPSI_success _ _ _ _ _ _ Hrun) as [-> ->].
      cbn [log]. rewrite dispatched_app. cbn [flat_map]. rewrite app_nil_r. reflexivity.
Qed.

(** ** Submitting a set *)

(** C9, as the contract has it: a submission that does not overflow the
    counter succeeds, returns no data, and announces the new id
    [setCount + 1] in [EncryptedSetSubmitted]; in every world the contract
    can reach that id was never announced before, no set is stored under it
    and no owner points to it; afterwards the caller's pointer is the new id
    and the set stored under it holds the submitted items. *)
Theorem submitEncryptedSet_fresh_id env items w :
  reachable w ->
  setCount (storage w) < MAX_UINT256 ->
  exists w',
    call env (SubmitEncryptedSet items) w = inr ([], w')
    /\ log w' = log w ++ [Emit (EncryptedSetSubmitted (setCount (storage w) + 1))]
    /\ ~ In (setCount (storage w) + 1) (submitted_ids (log w))
    /\ NoDup (submitted_ids (log w'))
    /\ encryptedSets (storage w) !! (setCount (storage w) + 1) = None
    /\ (forall o, getSetId w o <> setCount (storage w) + 1)
    /\ getSetId w' (msg_sender env) = setCount (storage w) + 1
    /\ encryptedSets (storage w') !! (setCount (storage w) + 1)
       = Some (EncryptedSet.mk (setCount (storage w) + 1) (msg_sender env) items
                 (block_timestamp env)).
Proof.
  intros Hreach Hroom.
  destruct (reachable_ids_bounded w Hreach) as (Hcount & Hsets & Hown & Hlog).
  assert (Hfree : encryptedSets (storage w) !! (setCount (storage w) + 1) = None).
  { destruct (encryptedSets (storage w) !! (setCount (storage w) + 1)) as [r |] eqn:Hk;
      [| reflexivity].
    apply Hsets in Hk. lia. }
  assert (Hcall : call env (SubmitEncryptedSet items) w
    = inr ([], mkWorld (submitted_storage env items (storage w)) (engine w)
                 (log w ++ [Emit (EncryptedSetSubmitted (setCount (storage w) + 1))]))).
  { cbn [call]. unfold bind at 1. rewrite submitEncryptedSet_closed_form.
    destruct (_ <=? MAX_UINT256) eqn:Hle; [reflexivity | apply Z.leb_gt in Hle; lia]. }
  eexists. split; [exact Hcall |].
  cbn [storage log]. split; [reflexivity |].
  split; [intros Hin; apply Hlog in Hin; lia |].
  split.
  { exact (reachable_submitted_ids_NoDup _
             (reachable_call w env (SubmitEncryptedSet items) [] _ Hreach Hcall)). }
  split; [exact Hfree |]. split.
  - intros o. unfold getSetId, ownerToSetId_at.
    destruct (ownerToSetId (storage w) !! o) as [k |] eqn:Hk; cbn.
    + apply Hown in Hk. lia.
    + lia.
  - unfold getSetId, ownerToSetId_at, submitted_storage, encryptedSets_at. cbn.
    rewrite !lookup_insert_eq, Hfree. split; reflexivity.
Qed.

(** * Further properties of the contract *)

(** ** What a successful call did *)

Lemma call_inv env c w data w' :
  call env c w = inr (data, w') ->
  match c with
  | SubmitEncryptedSet items =>
      setCount (storage w) + 1 <= MAX_UINT256
      /\ data = []
      /\ w' = mkWorld (submitted_storage env items (storage w)) (engine w)
                (log w ++ [Emit (EncryptedSetSubmitted (setCount (storage w) + 1))])
  | RequestMultiPSI participants sizeOnly =>
      (2 <= length participants)%nat
      /\ Forall (fun p => ownerToSetId_at (storage w) p <> 0) participants
      /\ Z.of_nat (length (flat_map (current_items (storage w)) participants))
         <= MAX_ARRAY_LENGTH
      /\ data = [PSIRequest.id (new_request env participants sizeOnly)]
      /\ w' = mkWorld
           (requested_storage (storage w)
              (snd (FHE_requestComputation (engine w)
                      (flat_map (current_items (storage w)) participants)
                      receivePSIResult_selector))
              (new_request env participants sizeOnly))
           (fst (FHE_requestComputation (engine w)
                   (flat_map (current_items (storage w)) participants)
                   receivePSIResult_selector))
           (log w ++ [Dispatch (flat_map (current_items (storage w)) participants)
                        receivePSIResult_selector
                        (snd (FHE_requestComputation (engine w)
                                (flat_map (current_items (storage w)) participants)
                                receivePSIResult_selector));
                      Emit (PSIRequested
                              (PSIRequest.id (new_request env participants sizeOnly)))])
  | ReceivePSIResult requestId encryptedResult proof =>
      FHE_checkSignatures (engine w) requestId encryptedResult proof = true
      /\ data = []
      /\ w' = mkWorld (set_psiResult requestId encryptedResult (storage w)) (engine w)
                (log w ++ [Emit (PSIResultReceived requestId)])
  end.
Proof.
  intros Hcall.
  destruct c as [items | participants sizeOnly | requestId encryptedResult proof];
    cbn [call] in Hcall; apply bind_inr in Hcall as (a & w1 & Hrun & Hret);
    injection Hret as <- <-.
  - rewrite submitEncryptedSet_closed_form in Hrun.
    destruct (_ <=? MAX_UINT256) eqn:Hle; [| discriminate].
    apply Z.leb_le in Hle. simplify_eq. repeat split. exact Hle.
  - rewrite requestMultiPSI_closed_form in Hrun.
    destruct (2 <=? _) eqn:Hlen; [| discriminate]. apply Z.leb_le in Hlen.
    destruct (count_pure _ _ _) as [e | total] eqn:Hcount; [discriminate |].
    apply count_pure_inr in Hcount as (Hall & -> & _).
    destruct (_ <=? MAX_ARRAY_LENGTH) eqn:Halloc; [| discriminate].
    apply Z.leb_le in Halloc.
    cbn zeta in Hrun. simplify_eq.
    split; [lia |]. split; [exact Hall |].
    split; [lia |]. split; reflexivity.
  - rewrite receivePSIResult_closed_form in Hrun.
    destruct (FHE_checkSignatures _ _ _ _) eqn:Hcheck; [| discriminate].
    simplify_eq. repeat split.
Qed.

Lemma count_pure_inl s participants total e :
  count_pure s participants total = inl e ->
  e = Error "Participant missing set" \/ e = Panic PANIC_OVERFLOW.
Proof.
  revert total. induction participants as [| p rest IH]; intros total; cbn.
  - discriminate.
  - destruct (ownerToSetId_at s p =? 0); [intros [= <-]; left; reflexivity |].
    destruct (_ <=? MAX_UINT256); [apply IH | intros [= <-]; right; reflexivity].
Qed.

(** ** What a request that goes through has passed *)

(** A request goes through only if it names at least two participants, each
    of them has a current set, and the item counts of these sets add up to
    no more than the longest memory array, 2^64-1. *)
Theorem requestMultiPSI_success_requires env participants sizeOnly w reqId w' :
  requestMultiPSI env participants sizeOnly w = inr (reqId, w') ->
  (2 <= length participants)%nat
  /\ Forall (fun p => getSetId w p <> 0) participants
  /\ Z.of_nat (length (flat_map (fun p => getEncryptedSetItems w (getSetId w p))
                         participants)) <= MAX_ARRAY_LENGTH.
Proof.
  change (flat_map (fun p => getEncryptedSetItems w (getSetId w p)) participants)
    with (flat_map (current_items (storage w)) participants).
  unfold getSetId. rewrite requestMultiPSI_closed_form.
  destruct (2 <=? _) eqn:Hlen; [| discriminate]. apply Z.leb_le in Hlen.
  destruct (count_pure _ _ _) as [e | total] eqn:Hcount; [discriminate |].
  apply count_pure_inr in Hcount as (Hall & -> & _).
  destruct (_ <=? MAX_ARRAY_LENGTH) eqn:Halloc; [| discriminate].
  apply Z.leb_le in Halloc. intros _.
  split; [lia |]. split; [exact Hall |]. lia.
Qed.

(** Once the counting loop has gone through, the copy loops cannot fail:
    every write [allCiphertexts[idx]] is in bounds and [idx++] does not
    overflow.  The only failure left before the engine is called is the
    allocation refusing the length, and when that goes through the array is
    the concatenation of the participants' current items, as long as counted. *)
Theorem copy_loops_stay_in_bounds participants w totalItems w1 :
  count_items participants w = inr (totalItems, w1) ->
  (forall e, gather_items participants totalItems w1 = inl e -> e = Panic PANIC_ALLOC)
  /\ (forall allCiphertexts w2,
        gather_items participants totalItems w1 = inr (allCiphertexts, w2) ->
        w2 = w1
        /\ allCiphertexts
           = flat_map (fun p => getEncryptedSetItems w (getSetId w p)) participants
        /\ Z.of_nat (length allCiphertexts) = totalItems).
Proof.
  change (flat_map (fun p => getEncryptedSetItems w (getSetId w p)) participants)
    with (flat_map (current_items (storage w)) participants).
  rewrite count_items_pure.
  destruct (count_pure (storage w) participants 0) as [e | total] eqn:Hcount;
    [discriminate |].
  intros H. simplify_eq.
  apply count_pure_inr in Hcount as (_ & -> & _). rewrite Z.add_0_l.
  destruct (Z.le_gt_cases
              (Z.of_nat (length (flat_map (current_items (storage w1)) participants)))
              MAX_ARRAY_LENGTH) as [Hfit | Hlong].
  - rewrite gather_items_spec by exact Hfit. split; [discriminate |].
    intros allCiphertexts w2 H. simplify_eq. repeat split.
  - rewrite gather_items_too_long by lia. split; [| discriminate].
    intros e [= <-]. reflexivity.
Qed.

(** ** What each entry point leaves alone *)

(** A successful submission advances the counter by one and touches nothing
    but the caller's pointer and the set under the new id: requests, results,
    the engine, the other owners' pointers and all other sets stay as they
    were. *)
Theorem submitEncryptedSet_frame env items w w' :
  submitEncryptedSet env items w = inr (tt, w') ->
  setCount (storage w') = setCount (storage w) + 1
  /\ psiRequests (storage w') = psiRequests (storage w)
  /\ psiResults (storage w') = psiResults (storage w)
  /\ engine w' = engine w
  /\ (forall o, o <> msg_sender env -> getSetId w' o = getSetId w o)
  /\ (forall k, k <> setCount (storage w) + 1 ->
      encryptedSets (storage w') !! k = encryptedSets (storage w) !! k).
Proof.
  rewrite submitEncryptedSet_closed_form.
  destruct (_ <=? MAX_UINT256); [| discriminate].
  intros H. simplify_eq. cbn.
  split; [reflexivity |]. split; [reflexivity |]. split; [reflexivity |].
  split; [reflexivity |]. split.
  - intros o Ho. unfold getSetId, ownerToSetId_at. cbn.
    rewrite lookup_insert_ne by congruence. reflexivity.
  - intros k Hk. rewrite lookup_insert_ne by congruence. reflexivity.
Qed.

(** A successful request changes no counter, pointer, set or result; it
    writes the request table at the returned id and at the engine's token
    only, and logs one dispatch followed by [PSIRequested]. *)
Theorem requestMultiPSI_frame env participants sizeOnly w reqId w' :
  requestMultiPSI env participants sizeOnly w = inr (reqId, w') ->
  setCount (storage w') = setCount (storage w)
  /\ ownerToSetId (storage w') = ownerToSetId (storage w)
  /\ encryptedSets (storage w') = encryptedSets (storage w)
  /\ psiResults (storage w') = psiResults (storage w)
  /\ exists handles token,
       log w' = log w ++ [Dispatch handles receivePSIResult_selector token;
                          Emit (PSIRequested reqId)]
       /\ forall k, k <> reqId -> k <> token ->
            psiRequests (storage w') !! k = psiRequests (storage w) !! k.
Proof.
  intros Hrun. pose proof (requestMultiPSI_success _ _ _ _ _ _ Hrun) as [-> ->].
  cbn. do 4 (split; [reflexivity |]).
  eexists _, _. split; [reflexivity |].
  intros k Hid Htoken. rewrite !lookup_insert_ne by congruence. reflexivity.
Qed.

(** An accepted callback stores its payload under its [requestId], so that
    [getEncryptedPSIResult] returns it, and logs [PSIResultReceived]; the
    counter, pointers, sets, requests and the results under every other id
    stay as they were. *)
Theorem receivePSIResult_frame env requestId encryptedResult proof w w' :
  receivePSIResult env requestId encryptedResult proof w = inr (tt, w') ->
  getEncryptedPSIResult w' requestId = encryptedResult
  /\ setCount (storage w') = setCount (storage w)
  /\ ownerToSetId (storage w') = ownerToSetId (storage w)
  /\ encryptedSets (storage w') = encryptedSets (storage w)
  /\ psiRequests (storage w') = psiRequests (storage w)
  /\ log w' = log w ++ [Emit (PSIResultReceived requestId)]
  /\ (forall k, k <> requestId ->
      getEncryptedPSIResult w' k = getEncryptedPSIResult w k).
Proof.
  rewrite receivePSIResult_closed_form.
  destruct (FHE_checkSignatures _ _ _ _); [| discriminate].
  intros H. simplify_eq. unfold getEncryptedPSIResult, psiResults_at. cbn.
  split; [rewrite lookup_insert_eq; reflexivity |].
  do 5 (split; [reflexivity |]).
  intros k Hk. rewrite lookup_insert_ne by congruence. reflexivity.
Qed.

(** ** Invariants of the stored sets and pointers *)

Lemma reachable_sets_dom w :
  reachable w ->
  (forall k, is_Some (encryptedSets (storage w) !! k) <-> 1 <= k <= setCount (storage w))
  /\ (forall k r, encryptedSets (storage w) !! k = Some r -> EncryptedSet.id r = k).
Proof.
  induction 1 as [e | w env c data w' Hreach [IHdom IHid] Hcall | w e _ IH];
    [| | exact IH].
  - cbn. split.
    + intros k. rewrite lookup_empty. split; [intros [r Hr]; discriminate | lia].
    + intros k r Hk. rewrite lookup_empty in Hk. discriminate.
  - destruct (reachable_ids_bounded w Hreach) as (Hcount & _).
    apply call_inv in Hcall.
    destruct c as [items | participants sizeOnly | requestId encryptedResult proof].
    + destruct Hcall as (Hroom & _ & ->). cbn. split.
      * intros k. destruct (decide (setCount (storage w) + 1 = k)) as [<- | Hne].
        -- rewrite lookup_insert_eq. split; [lia | eauto].
        -- rewrite lookup_insert_ne by exact Hne. rewrite IHdom. lia.
      * intros k r. destruct (decide (setCount (storage w) + 1 = k)) as [<- | Hne].
        -- rewrite lookup_insert_eq. intros [= <-]. reflexivity.
        -- rewrite lookup_insert_ne by exact Hne. apply IHid.
    + destruct Hcall as (_ & _ & _ & _ & ->). cbn. split; assumption.
    + destruct Hcall as (_ & _ & ->). cbn. split; assumption.
Qed.

Lemma reachable_pointers w :
  reachable w ->
  (forall o k, ownerToSetId (storage w) !! o = Some k ->
     exists r, encryptedSets (storage w) !! k = Some r
               /\ EncryptedSet.owner r = o
               /\ forall k' r', encryptedSets (storage w) !! k' = Some r' ->
                                EncryptedSet.owner r' = o -> k' <= k)
  /\ (forall k r, encryptedSets (storage w) !! k = Some r ->
        is_Some (ownerToSetId (storage w) !! EncryptedSet.owner r)).
Proof.
  induction 1 as [e | w env c data w' Hreach [IHptr IHown] Hcall | w e _ IH];
    [| | exact IH].
  - cbn. split; intros ? ? Hk; rewrite lookup_empty in Hk; discriminate.
  - destruct (reachable_ids_bounded w Hreach) as (Hcount & Hsets & _).
    apply call_inv in Hcall.
    destruct c as [items | participants sizeOnly | requestId encryptedResult proof].
    + destruct Hcall as (Hroom & _ & ->). cbn. split.
      * intros o k. destruct (decide (msg_sender env = o)) as [<- | Hne].
        -- rewrite lookup_insert_eq. intros [= <-]. eexists.
           rewrite lookup_insert_eq. split; [reflexivity |]. split; [reflexivity |].
           intros k' r'. destruct (decide (setCount (storage w) + 1 = k')) as [<- | Hk'].
           ++ lia.
           ++ rewrite lookup_insert_ne by exact Hk'. intros Hr' _.
              apply Hsets in Hr'. lia.
        -- rewrite lookup_insert_ne by exact Hne. intros Hk.
           destruct (IHptr o k Hk) as (r & Hr & Ho & Hmax).
           exists r. pose proof (Hsets k r Hr) as Hbound.
           rewrite lookup_insert_ne by lia. split; [exact Hr |]. split; [exact Ho |].
           intros k' r'. destruct (decide (setCount (storage w) + 1 = k')) as [<- | Hk'].
           ++ rewrite lookup_insert_eq. intros [= <-]. cbn. congruence.
           ++ rewrite lookup_insert_ne by exact Hk'. apply Hmax.
      * intros k r. destruct (decide (setCount (storage w) + 1 = k)) as [<- | Hne].
        -- rewrite lookup_insert_eq. intros [= <-]. cbn.
           rewrite lookup_insert_eq. eauto.
        -- rewrite lookup_insert_ne by exact Hne. intros Hr.
           destruct (decide (msg_sender env = EncryptedSet.owner r)) as [<- | Ho].
           ++ rewrite lookup_insert_eq. eauto.
           ++ rewrite lookup_insert_ne by exact Ho. exact (IHown k r Hr).
    + destruct Hcall as (_ & _ & _ & _ & ->). cbn. split; assumption.
    + destruct Hcall as (_ & _ & ->). cbn. split; assumption.
Qed.

Lemma getSetId_nonzero w o :
  reachable w -> getSetId w o <> 0 ->
  ownerToSetId (storage w) !! o = Some (getSetId w o).
Proof.
  intros _. unfold getSetId, ownerToSetId_at.
  destruct (ownerToSetId (storage w) !! o); cbn; congruence.
Qed.

(** In every world the contract can reach, the stored sets are exactly those
    with ids 1 to [setCount], each set records the id it is stored under, and
    reading the items of any other id gives the empty list. *)
Theorem reachable_sets_exact w :
  reachable w ->
  (forall k, is_Some (encryptedSets (storage w) !! k) <-> 1 <= k <= setCount (storage w))
  /\ (forall k r, encryptedSets (storage w) !! k = Some r -> EncryptedSet.id r = k)
  /\ (forall k, ~ 1 <= k <= setCount (storage w) -> getEncryptedSetItems w k = []).
Proof.
  intros Hreach. destruct (reachable_sets_dom w Hreach) as [Hdom Hid].
  split; [exact Hdom |]. split; [exact Hid |].
  intros k Hout. unfold getEncryptedSetItems, encryptedSets_at.
  destruct (encryptedSets (storage w) !! k) as [r |] eqn:Hk; [| reflexivity].
  exfalso. apply Hout, Hdom. eauto.
Qed.

(** In every reachable world, an owner with a non-zero pointer owns the set
    it designates, and that set is the highest-numbered of the owner's sets;
    conversely the owner of every stored set has a non-zero pointer. *)
Theorem reachable_pointer_latest w :
  reachable w ->
  (forall o, getSetId w o <> 0 ->
     exists r, encryptedSets (storage w) !! getSetId w o = Some r
               /\ EncryptedSet.owner r = o
               /\ forall k' r', encryptedSets (storage w) !! k' = Some r' ->
                                EncryptedSet.owner r' = o -> k' <= getSetId w o)
  /\ (forall k r, encryptedSets (storage w) !! k = Some r ->
        getSetId w (EncryptedSet.owner r) <> 0).
Proof.
  intros Hreach. destruct (reachable_pointers w Hreach) as [Hptr Hown]. split.
  - intros o Ho. apply Hptr, getSetId_nonzero; assumption.
  - intros k r Hr. destruct (Hown k r Hr) as [k' Hk'].
    destruct (reachable_ids_bounded w Hreach) as (_ & _ & Hbound & _).
    unfold getSetId, ownerToSetId_at. rewrite Hk'. cbn.
    apply Hbound in Hk'. lia.
Qed.

(** [onlyOwnerOfSet] in a reachable world: the holder of a non-zero pointer
    passes the check for the set the pointer designates, and for an id that
    was never assigned every caller but the zero address is turned away with
    "Not owner". *)
Theorem onlyOwnerOfSet_reachable env w :
  reachable w ->
  (getSetId w (msg_sender env) <> 0 ->
     onlyOwnerOfSet env (getSetId w (msg_sender env)) w = inr (tt, w))
  /\ (forall setId, ~ 1 <= setId <= setCount (storage w) -> msg_sender env <> 0 ->
        onlyOwnerOfSet env setId w = inl (Error "Not owner")).
Proof.
  intros Hreach. destruct (reachable_pointers w Hreach) as [Hptr _].
  destruct (reachable_sets_dom w Hreach) as [Hdom _].
  unfold onlyOwnerOfSet, bind, gets, encryptedSets_at. split.
  - intros Hset. apply getSetId_nonzero in Hset; [| exact Hreach].
    destruct (Hptr _ _ Hset) as (r & Hr & Ho & _). rewrite Hr. cbn.
    rewrite Ho, Z.eqb_refl. reflexivity.
  - intros setId Hout Hsender.
    destruct (encryptedSets (storage w) !! setId) as [r |] eqn:Hk.
    + exfalso. apply Hout, Hdom. eauto.
    + cbn [default EncryptedSet.zero EncryptedSet.owner].
      destruct (0 =? msg_sender env) eqn:Heq; [| reflexivity].
      apply Z.eqb_eq in Heq. congruence.
Qed.

(** ** What later calls cannot undo *)

Lemma evolves_grows w w' :
  reachable w -> evolves w w' ->
  reachable w'
  /\ setCount (storage w) <= setCount (storage w')
  /\ (forall k r, encryptedSets (storage w) !! k = Some r ->
        encryptedSets (storage w') !! k = Some r)
  /\ (forall o k, ownerToSetId (storage w) !! o = Some k ->
        exists k', ownerToSetId (storage w') !! o = Some k' /\ k <= k')
  /\ (exists l, log w' = log w ++ l).
Proof.
  intros Hreach.
  induction 1 as [w | w w1 env c data w2 _ IH Hcall | w w1 e _ IH].
  - split; [exact Hreach |]. split; [lia |]. split; [auto |]. split.
    + intros o k Hk. exists k. split; [exact Hk | lia].
    + exists []. rewrite app_nil_r. reflexivity.
  - destruct (IH Hreach) as (Hreach1 & Hcount & Hsets & Hptr & l & Hlog).
    split; [exact (reachable_call w1 env c data w2 Hreach1 Hcall) |].
    destruct (reachable_ids_bounded w1 Hreach1) as (_ & Hb_sets & Hb_ptr & _).
    apply call_inv in Hcall.
    destruct c as [items | participants sizeOnly | requestId encryptedResult proof].
    + destruct Hcall as (Hroom & _ & ->). cbn. split; [lia |]. split; [| split].
      * intros k r Hk. apply Hsets in Hk. pose proof (Hb_sets k r Hk).
        rewrite lookup_insert_ne by lia. exact Hk.
      * intros o k Hk. destruct (Hptr o k Hk) as (k' & Hk' & Hle).
        pose proof (Hb_ptr o k' Hk').
        destruct (decide (msg_sender env = o)) as [<- | Hne].
        -- eexists. rewrite lookup_insert_eq. split; [reflexivity | lia].
        -- exists k'. rewrite lookup_insert_ne by exact Hne. split; assumption.
      * eexists. rewrite Hlog, <- app_assoc. reflexivity.
    + destruct Hcall as (_ & _ & _ & _ & ->). cbn.
      split; [exact Hcount |]. split; [exact Hsets |]. split; [exact Hptr |].
      eexists. rewrite Hlog, <- app_assoc. reflexivity.
    + destruct Hcall as (_ & _ & ->). cbn.
      split; [exact Hcount |]. split; [exact Hsets |]. split; [exact Hptr |].
      eexists. rewrite Hlog, <- app_assoc. reflexivity.
  - destruct (IH Hreach) as (Hreach1 & Hrest).
    split; [exact (reachable_engine w1 e Hreach1) | exact Hrest].
Qed.

(** A stored set is never changed or removed: whatever calls follow, the
    record under its id stays the same, and so do the items read back. *)
Theorem encryptedSets_immutable w w' k r :
  reachable w -> evolves w w' ->
  encryptedSets (storage w) !! k = Some r ->
  encryptedSets (storage w') !! k = Some r
  /\ getEncryptedSetItems w' k = getEncryptedSetItems w k.
Proof.
  intros Hreach Hev Hk.
  destruct (evolves_grows w w' Hreach Hev) as (_ & _ & Hsets & _).
  pose proof (Hsets k r Hk) as Hk'. split; [exact Hk' |].
  unfold getEncryptedSetItems, encryptedSets_at. rewrite Hk, Hk'. reflexivity.
Qed.

(** The counter never goes down, and an owner's pointer, once set, is never
    cleared and never moves back to an older set. *)
Theorem pointers_only_advance w w' :
  reachable w -> evolves w w' ->
  setCount (storage w) <= setCount (storage w')
  /\ forall o, getSetId w o <> 0 ->
       getSetId w' o <> 0 /\ getSetId w o <= getSetId w' o.
Proof.
  intros Hreach Hev.
  destruct (evolves_grows w w' Hreach Hev) as (_ & Hcount & _ & Hptr & _).
  split; [exact Hcount |]. intros o Ho.
  pose proof (getSetId_nonzero w o Hreach Ho) as Hk.
  destruct (reachable_ids_bounded w Hreach) as (_ & _ & Hbound & _).
  pose proof (Hbound _ _ Hk) as Hpos.
  destruct (Hptr _ _ Hk) as (k' & Hk' & Hle).
  assert (Hget : getSetId w' o = k')
    by (unfold getSetId, ownerToSetId_at; rewrite Hk'; reflexivity).
  rewrite Hget. lia.
Qed.

(** ** Invariants of the result and request tables *)

Lemma received_ids_app l l' : received_ids (l ++ l') = received_ids l ++ received_ids l'.
Proof. apply flat_map_app. Qed.

Lemma requested_ids_app l l' : requested_ids (l ++ l') = requested_ids l ++ requested_ids l'.
Proof. apply flat_map_app. Qed.

(** In every reachable world [getEncryptedPSIResult] returns something other
    than empty bytes for an id only if a callback for that id was accepted;
    an id without an accepted callback reads as empty bytes. *)
Theorem results_only_from_callbacks w :
  reachable w ->
  (forall k, getEncryptedPSIResult w k <> [] -> In k (received_ids (log w)))
  /\ (forall k, ~ In k (received_ids (log w)) -> getEncryptedPSIResult w k = []).
Proof.
  intros Hreach.
  assert (Hinv : forall k r,
    psiResults (storage w) !! k = Some r -> In k (received_ids (log w))).
  { induction Hreach as [e | w env c data w' _ IH Hcall | w e _ IH]; [| | exact IH].
    - intros k r Hk. cbn in Hk. rewrite lookup_empty in Hk. discriminate.
    - apply call_inv in Hcall.
      destruct c as [items | participants sizeOnly | requestId encryptedResult proof].
      + destruct Hcall as (_ & _ & ->). cbn. intros k r.
        rewrite received_ids_app. cbn. rewrite app_nil_r. apply IH.
      + destruct Hcall as (_ & _ & _ & _ & ->). cbn. intros k r.
        rewrite received_ids_app. cbn. rewrite app_nil_r. apply IH.
      + destruct Hcall as (_ & _ & ->). cbn. intros k r.
        rewrite received_ids_app, in_app_iff. cbn.
        destruct (decide (requestId = k)) as [<- | Hne].
        * tauto.
        * rewrite lookup_insert_ne by exact Hne. intros Hk. left. exact (IH k r Hk). }
  assert (Hread : forall k, getEncryptedPSIResult w k <> [] -> In k (received_ids (log w))).
  { intros k. unfold getEncryptedPSIResult, psiResults_at.
    destruct (psiResults (storage w) !! k) as [r |] eqn:Hr; cbn.
    - intros _. exact (Hinv k r Hr).
    - congruence. }
  split; [exact Hread |].
  intros k Hk. destruct (getEncryptedPSIResult w k) as [| b bs] eqn:Hres; [reflexivity |].
  exfalso. apply Hk, Hread. rewrite Hres. discriminate.
Qed.

(** In every reachable world each stored request names at least two
    participants, every one of them still has a current set, the record's id
    is the hash of its own requester, timestamp and participants, and that id
    was announced by [PSIRequested]. *)
Theorem stored_requests_valid w k r :
  reachable w ->
  psiRequests (storage w) !! k = Some r ->
  (2 <= length (PSIRequest.participants r))%nat
  /\ Forall (fun p => getSetId w p <> 0) (PSIRequest.participants r)
  /\ PSIRequest.id r
     = keccak256 (abi_encodePacked (PSIRequest.requester r) (PSIRequest.timestamp r)
                    (PSIRequest.participants r))
  /\ In (PSIRequest.id r) (requested_ids (log w)).
Proof.
  intros Hreach. revert k r.
  induction Hreach as [e | w env c data w' Hreach IH Hcall | w e _ IH]; [| | exact IH].
  - intros k r Hk. cbn in Hk. rewrite lookup_empty in Hk. discriminate.
  - destruct (reachable_ids_bounded w Hreach) as (Hcount & _).
    apply call_inv in Hcall.
    destruct c as [items | participants sizeOnly | requestId encryptedResult proof].
    + destruct Hcall as (_ & _ & ->). cbn. intros k r Hk.
      destruct (IH k r Hk) as (Hlen & Hall & Hid & Hlog).
      split; [exact Hlen |]. split; [| split; [exact Hid |]].
      * eapply Forall_impl; [exact Hall |]. intros p Hp.
        unfold getSetId, ownerToSetId_at in *. cbn.
        destruct (decide (msg_sender env = p)) as [<- | Hne].
        -- rewrite lookup_insert_eq. cbn. lia.
        -- rewrite lookup_insert_ne by exact Hne. exact Hp.
      * rewrite requested_ids_app. apply in_or_app. left. exact Hlog.
    + destruct Hcall as (Hlen & Hall & _ & _ & ->).
      assert (Hnew : (2 <= length (PSIRequest.participants
                                     (new_request env participants sizeOnly)))%nat
        /\ Forall (fun p => ownerToSetId_at (storage w) p <> 0)
             (PSIRequest.participants (new_request env participants sizeOnly))
        /\ PSIRequest.id (new_request env participants sizeOnly)
           = keccak256 (abi_encodePacked
               (PSIRequest.requester (new_request env participants sizeOnly))
               (PSIRequest.timestamp (new_request env participants sizeOnly))
               (PSIRequest.participants (new_request env participants sizeOnly)))).
      { cbn. split; [exact Hlen |]. split; [exact Hall | reflexivity]. }
      cbn [storage log requested_storage psiRequests]. intros k r.
      rewrite requested_ids_app. unfold getSetId. cbn [storage ownerToSetId_at ownerToSetId].
      destruct (decide (snd (FHE_requestComputation (engine w)
                               (flat_map (current_items (storage w)) participants)
                               receivePSIResult_selector) = k)) as [<- | Htoken].
      * rewrite lookup_insert_eq. intros [= <-].
        destruct Hnew as (H1 & H2 & H3). split; [exact H1 |]. split; [exact H2 |].
        split; [exact H3 |]. apply in_or_app. right. cbn. left. reflexivity.
      * rewrite lookup_insert_ne by exact Htoken.
        destruct (decide (PSIRequest.id (new_request env participants sizeOnly) = k))
          as [<- | Hid].
        -- rewrite lookup_insert_eq. intros [= <-].
           destruct Hnew as (H1 & H2 & H3). split; [exact H1 |]. split; [exact H2 |].
           split; [exact H3 |]. apply in_or_app. right. cbn. left. reflexivity.
        -- rewrite lookup_insert_ne by exact Hid. intros Hk.
           destruct (IH k r Hk) as (H1 & H2 & H3 & H4).
           split; [exact H1 |]. split; [exact H2 |]. split; [exact H3 |].
           apply in_or_app. left. exact H4.
    + destruct Hcall as (_ & _ & ->). cbn. intros k r Hk.
      destruct (IH k r Hk) as (H1 & H2 & H3 & H4).
      split; [exact H1 |]. split; [exact H2 |]. split; [exact H3 |].
      rewrite requested_ids_app. apply in_or_app. left. exact H4.
Qed.

(** ** How the entry points compose *)

Lemma submit_fresh env items w :
  reachable w -> setCount (storage w) + 1 <= MAX_UINT256 ->
  submitEncryptedSet env items w
  = inr (tt, mkWorld
      (mkStorage (setCount (storage w) + 1)
         (<[msg_sender env := setCount (storage w) + 1]> (ownerToSetId (storage w)))
         (<[setCount (storage w) + 1 :=
              EncryptedSet.mk (setCount (storage w) + 1) (msg_sender env) items
                (block_timestamp env)]> (encryptedSets (storage w)))
         (psiRequests (storage w)) (psiResults (storage w)))
      (engine w)
      (log w ++ [Emit (EncryptedSetSubmitted (setCount (storage w) + 1))])).
Proof.
  intros Hreach Hroom.
  destruct (reachable_ids_bounded w Hreach) as (_ & Hsets & _).
  rewrite submitEncryptedSet_closed_form.
  destruct (_ <=? MAX_UINT256) eqn:Hle; [| apply Z.leb_gt in Hle; lia].
  unfold submitted_storage, encryptedSets_at.
  destruct (encryptedSets (storage w) !! (setCount (storage w) + 1)) as [r |] eqn:Hk.
  - apply Hsets in Hk. lia.
  - reflexivity.
Qed.

Lemma submit_reachable env items w w' :
  reachable w -> submitEncryptedSet env items w = inr (tt, w') -> reachable w'.
Proof.
  intros Hreach Hrun.
  apply (reachable_call w env (SubmitEncryptedSet items) [] w' Hreach).
  cbn [call]. rewrite (bind_step _ _ _ _ _ Hrun). reflexivity.
Qed.

(** A second submission by the same owner moves the owner's pointer to the
    new set; the earlier set stays readable under its id, items unchanged. *)
Theorem resubmission_supersedes env1 env2 xs ys w :
  reachable w ->
  msg_sender env1 = msg_sender env2 ->
  setCount (storage w) + 2 <= MAX_UINT256 ->
  exists w1 w2,
    submitEncryptedSet env1 xs w = inr (tt, w1)
    /\ submitEncryptedSet env2 ys w1 = inr (tt, w2)
    /\ getSetId w1 (msg_sender env1) = setCount (storage w) + 1
    /\ getSetId w2 (msg_sender env1) = setCount (storage w) + 2
    /\ getEncryptedSetItems w2 (setCount (storage w) + 1) = xs
    /\ getEncryptedSetItems w2 (setCount (storage w) + 2) = ys.
Proof.
  intros Hreach Hsame Hroom.
  pose proof (submit_fresh env1 xs w Hreach ltac:(lia)) as Hrun1.
  pose proof (submit_reachable _ _ _ _ Hreach Hrun1) as Hreach1.
  pose proof (submit_fresh env2 ys _ Hreach1) as Hrun2.
  cbn [storage engine log setCount ownerToSetId encryptedSets psiRequests psiResults]
    in Hrun2.
  specialize (Hrun2 ltac:(lia)).
  eexists _, _. split; [exact Hrun1 |]. split; [exact Hrun2 |].
  unfold getSetId, getEncryptedSetItems, ownerToSetId_at, encryptedSets_at.
  cbn [storage ownerToSetId encryptedSets].
  rewrite <- Hsame.
  replace (setCount (storage w) + 1 + 1) with (setCount (storage w) + 2) by lia.
  rewrite !lookup_insert_eq.
  rewrite (lookup_insert_ne _ (setCount (storage w) + 2) (setCount (storage w) + 1)) by lia.
  rewrite lookup_insert_eq. repeat split.
Qed.

(** After one owner has submitted [xs] and another [ys], a request naming
    the two, in this order, passes the participant checks with a count of
    [length xs + length ys], and when it goes through it hands [xs ++ ys] to
    the engine. *)
Theorem two_submissions_then_request env_a env_b env xs ys sizeOnly w :
  reachable w ->
  msg_sender env_a <> msg_sender env_b ->
  setCount (storage w) + 2 <= MAX_UINT256 ->
  Z.of_nat (length xs + length ys) <= MAX_UINT256 ->
  exists w1 w2,
    submitEncryptedSet env_a xs w = inr (tt, w1)
    /\ submitEncryptedSet env_b ys w1 = inr (tt, w2)
    /\ count_items [msg_sender env_a; msg_sender env_b] w2
       = inr (Z.of_nat (length xs + length ys), w2)
    /\ forall reqId w3,
         requestMultiPSI env [msg_sender env_a; msg_sender env_b] sizeOnly w2
           = inr (reqId, w3) ->
         dispatched (log w3) = dispatched (log w) ++ [xs ++ ys].
Proof.
  intros Hreach Hdiff Hroom Hfits.
  destruct (reachable_ids_bounded w Hreach) as (Hcount & _).
  pose proof (submit_fresh env_a xs w Hreach ltac:(lia)) as Hrun1.
  pose proof (submit_reachable _ _ _ _ Hreach Hrun1) as Hreach1.
  pose proof (submit_fresh env_b ys _ Hreach1) as Hrun2.
  cbn [storage engine log setCount ownerToSetId encryptedSets psiRequests psiResults]
    in Hrun2.
  specialize (Hrun2 ltac:(lia)).
  replace (setCount (storage w) + 1 + 1) with (setCount (storage w) + 2) in Hrun2 by lia.
  match type of Hrun2 with _ = inr (tt, ?w) => set (w2 := w) in * end.
  assert (Ha : ownerToSetId_at (storage w2) (msg_sender env_a) = setCount (storage w) + 1).
  { unfold ownerToSetId_at. cbn.
    rewrite lookup_insert_ne by congruence. rewrite lookup_insert_eq. reflexivity. }
  assert (Hb : ownerToSetId_at (storage w2) (msg_sender env_b) = setCount (storage w) + 2).
  { unfold ownerToSetId_at. cbn. rewrite lookup_insert_eq. reflexivity. }
  assert (Hxs : current_items (storage w2) (msg_sender env_a) = xs).
  { unfold current_items. rewrite Ha. unfold encryptedSets_at. cbn.
    rewrite lookup_insert_ne by lia. rewrite lookup_insert_eq. reflexivity. }
  assert (Hys : current_items (storage w2) (msg_sender env_b) = ys).
  { unfold current_items. rewrite Hb. unfold encryptedSets_at. cbn.
    rewrite lookup_insert_eq. reflexivity. }
  assert (Hcat : flat_map (current_items (storage w2)) [msg_sender env_a; msg_sender env_b]
                 = xs ++ ys).
  { cbn [flat_map]. rewrite Hxs, Hys, app_nil_r. reflexivity. }
  assert (Hcount2 : count_pure (storage w2) [msg_sender env_a; msg_sender env_b] 0
                    = inr (0 + Z.of_nat (length (xs ++ ys)))).
  { rewrite <- Hcat. apply count_pure_total.
    - repeat constructor; [rewrite Ha | rewrite Hb]; lia.
    - rewrite Hcat, length_app. lia. }
  eexists _, _. split; [exact Hrun1 |]. split; [exact Hrun2 |]. split.
  - rewrite count_items_pure, Hcount2, length_app. reflexivity.
  - intros reqId w3 Hreq.
    pose proof (requestMultiPSI_success _ _ _ _ _ _ Hreq) as [-> ->].
    cbn [log]. rewrite dispatched_app, Hcat. subst w2. cbn [log].
    rewrite !dispatched_app. cbn. rewrite !app_nil_r. reflexivity.
Qed.

(** The request id does not depend on [sizeOnly] or on the state: a second
    request by the same sender in the same block for the same participants
    goes through under the same id and replaces the record stored there, so
    the later [sizeOnly] is the one kept. *)
Theorem requestMultiPSI_same_block_collision env participants so1 so2 w id1 w1 :
  requestMultiPSI env participants so1 w = inr (id1, w1) ->
  psiRequests (storage w1) !! id1 = Some (new_request env participants so1)
  /\ exists w2,
       requestMultiPSI env participants so2 w1 = inr (id1, w2)
       /\ psiRequests (storage w2) !! id1 = Some (new_request env participants so2)
       /\ PSIRequest.sizeOnly (psiRequests_at (storage w2) id1) = so2.
Proof.
  intros Hrun.
  assert (Hlookup : forall s token so,
    psiRequests (requested_storage s token (new_request env participants so))
      !! PSIRequest.id (new_request env participants so)
    = Some (new_request env participants so)).
  { intros s token so. cbn.
    destruct (decide (token = keccak256 (abi_encodePacked (msg_sender env)
                                           (block_timestamp env) participants)))
      as [-> | Hne].
    - apply lookup_insert_eq.
    - rewrite lookup_insert_ne by exact Hne. apply lookup_insert_eq. }
  pose proof Hrun as Hform. rewrite requestMultiPSI_closed_form in Hform.
  destruct (2 <=? Z.of_nat (length participants)) eqn:Hlen; [| discriminate].
  destruct (count_pure (storage w) participants 0) as [e | total] eqn:Hcount;
    [discriminate |].
  destruct (total <=? MAX_ARRAY_LENGTH) eqn:Halloc; [| discriminate].
  cbn zeta in Hform. simplify_eq.
  split; [apply Hlookup |].
  eexists. rewrite requestMultiPSI_closed_form, Hlen.
  cbn [storage]. rewrite (count_pure_ext _ (storage w)) by reflexivity.
  rewrite Hcount, Halloc. cbn zeta. split; [reflexivity |].
  cbn [storage]. assert (Hsame : PSIRequest.id (new_request env participants so1)
                                 = PSIRequest.id (new_request env participants so2))
    by reflexivity.
  rewrite Hsame. split; [apply Hlookup |].
  unfold psiRequests_at. rewrite Hlookup. reflexivity.
Qed.

(** ** The packed encoding can be read back *)

Lemma byte_of_Z_value z : Z.of_N (Byte.to_N (byte_of_Z z)) = z mod 256.
Proof.
  unfold byte_of_Z.
  assert (Hrange : 0 <= z mod 256 < 256) by (apply Z.mod_pos_bound; lia).
  destruct (Byte.of_N (Z.to_N (z mod 256))) as [b |] eqn:Hb.
  - apply Byte.to_of_N in Hb. cbn. rewrite Hb. lia.
  - apply Byte.of_N_None_iff in Hb. lia.
Qed.

Lemma length_be_bytes n v : length (be_bytes n v) = n.
Proof. induction n as [| n IH]; cbn; [reflexivity | rewrite IH; reflexivity]. Qed.

Lemma fold_be_bytes n v acc :
  0 <= v ->
  fold_left (fun a b => a * 256 + Z.of_N (Byte.to_N b)) (be_bytes n v) acc
  = acc * 2 ^ (8 * Z.of_nat n) + v mod 2 ^ (8 * Z.of_nat n).
Proof.
  intros Hv. revert acc. induction n as [| n IH]; intros acc.
  - cbn. rewrite Z.mod_1_r. lia.
  - cbn [be_bytes fold_left]. rewrite IH, byte_of_Z_value.
    rewrite Z.shiftr_div_pow2 by lia.
    replace (8 * Z.of_nat (S n)) with (8 * Z.of_nat n + 8) by lia.
    rewrite Z.pow_add_r by lia.
    assert (Hpow : 0 < 2 ^ (8 * Z.of_nat n)) by (apply Z.pow_pos_nonneg; lia).
    rewrite (Z.rem_mul_r v (2 ^ (8 * Z.of_nat n)) (2 ^ 8)) by lia.
    change (2 ^ 8) with 256. lia.
Qed.

Lemma be_value_be_bytes n v :
  0 <= v < 2 ^ (8 * Z.of_nat n) -> be_value (be_bytes n v) = v.
Proof.
  intros Hv. unfold be_value. rewrite fold_be_bytes by lia.
  rewrite Z.mod_small by lia. lia.
Qed.

Lemma flat_map_be_bytes_inj (ps ps' : list Z) :
  Forall is_uint256 ps -> Forall is_uint256 ps' ->
  flat_map (be_bytes 32) ps = flat_map (be_bytes 32) ps' -> ps = ps'.
Proof.
  intros Hps. revert ps'. induction Hps as [| p ps Hp _ IH]; intros ps' Hps' Heq.
  - destruct ps' as [| p' ps']; [reflexivity |]. cbn in Heq. discriminate.
  - destruct Hps' as [| p' ps' Hp' Hps']; [cbn in Heq; discriminate |].
    cbn [flat_map] in Heq.
    apply app_inj_1 in Heq as [Hhead Htail]; [| rewrite !length_be_bytes; reflexivity].
    f_equal; [| exact (IH ps' Hps' Htail)].
    rewrite <- (be_value_be_bytes 32 p), <- (be_value_be_bytes 32 p'), Hhead
      by (unfold is_uint256 in *; exact Hp || exact Hp').
    reflexivity.
Qed.

(** The bytes hashed into a request id determine the request: for a 160-bit
    sender, a 256-bit timestamp and 160-bit participants, two packed
    encodings are equal only if sender, timestamp and participants are; the
    encoding is 52 bytes plus 32 per participant. *)
Theorem abi_encodePacked_injective sender now participants sender' now' participants' :
  is_address sender -> is_address sender' ->
  is_uint256 now -> is_uint256 now' ->
  Forall is_address participants -> Forall is_address participants' ->
  length (abi_encodePacked sender now participants)
    = (52 + 32 * length participants)%nat
  /\ (abi_encodePacked sender now participants
        = abi_encodePacked sender' now' participants' ->
      sender = sender' /\ now = now' /\ participants = participants').
Proof.
  intros Hs Hs' Hn Hn' Hps Hps'. split.
  - unfold abi_encodePacked. rewrite !length_app, !length_be_bytes.
    assert (Hlen : forall l, length (flat_map (be_bytes 32) l) = (32 * length l)%nat).
    { induction l as [| x l IH]; [reflexivity |].
      cbn [flat_map]. rewrite length_app, length_be_bytes, IH. cbn [length]. lia. }
    rewrite Hlen. lia.
  - unfold abi_encodePacked. intros Heq.
    apply app_inj_1 in Heq as [Hsender Hrest]; [| rewrite !length_be_bytes; reflexivity].
    apply app_inj_1 in Hrest as [Hnow Hlist]; [| rewrite !length_be_bytes; reflexivity].
    assert (Hwide : forall l, Forall is_address l -> Forall is_uint256 l).
    { intros l Hl. eapply Forall_impl; [exact Hl |].
      unfold is_address, is_uint256. intros a Ha.
      assert (2 ^ 160 < 2 ^ 256) by (apply Z.pow_lt_mono_r; lia). lia. }
    split; [| split].
    + rewrite <- (be_value_be_bytes 20 sender), <- (be_value_be_bytes 20 sender'), Hsender
        by (unfold is_address in *; exact Hs || exact Hs').
      reflexivity.
    + rewrite <- (be_value_be_bytes 32 now), <- (be_value_be_bytes 32 now'), Hnow
        by (unfold is_uint256 in *; exact Hn || exact Hn').
      reflexivity.
    + apply flat_map_be_bytes_inj; auto.
Qed.

(** ** The event log against the tables *)

(** In every reachable world the announced set ids are 1, 2, ..., [setCount]
    in this order, and an id was announced exactly when a set is stored under
    it. *)
Theorem announced_sets_stored w :
  reachable w ->
  submitted_ids (log w) = map Z.of_nat (seq 1 (Z.to_nat (setCount (storage w))))
  /\ (forall k, In k (submitted_ids (log w))
                <-> is_Some (encryptedSets (storage w) !! k)).
Proof.
  intros Hreach.
  destruct (reachable_submitted_ids w Hreach) as [Hpos Hids].
  destruct (reachable_sets_dom w Hreach) as [Hdom _].
  split; [exact Hids |]. intros k. rewrite Hdom, Hids, in_map_iff. split.
  - intros (n & <- & Hn). apply in_seq in Hn. lia.
  - intros Hk. exists (Z.to_nat k). split; [lia |]. apply in_seq. lia.
Qed.

(** In every reachable world the engine was asked once per announced
    request, each time with the selector of [receivePSIResult]; a record is
    stored under every token it answered with and under every announced
    request id, and every key of the request table is one of the two. *)
Theorem requests_accounting w :
  reachable w ->
  length (dispatched (log w)) = length (requested_ids (log w))
  /\ (forall handles selector token, In (Dispatch handles selector token) (log w) ->
        selector = receivePSIResult_selector
        /\ is_Some (psiRequests (storage w) !! token))
  /\ (forall k, In k (requested_ids (log w)) -> is_Some (psiRequests (storage w) !! k))
  /\ (forall k r, psiRequests (storage w) !! k = Some r ->
        k = PSIRequest.id r
        \/ exists handles, In (Dispatch handles receivePSIResult_selector k) (log w)).
Proof.
  induction 1 as [e | w env c data w' _ (IHlen & IHtok & IHid & IHkey) Hcall | w e _ IH];
    [| | exact IH].
  - cbn. split; [reflexivity |]. split; [intros ? ? ? [] |]. split; [intros ? [] |].
    intros k r Hk. rewrite lookup_empty in Hk. discriminate.
  - apply call_inv in Hcall.
    destruct c as [items | participants sizeOnly | requestId encryptedResult proof].
    + destruct Hcall as (_ & _ & ->). cbn [storage log submitted_storage psiRequests].
      rewrite dispatched_app, requested_ids_app. cbn. rewrite !app_nil_r.
      split; [exact IHlen |]. split; [| split].
      * intros h sel t Hin. apply in_app_or in Hin as [Hin | [Hin | []]];
          [eauto | discriminate].
      * exact IHid.
      * intros k r Hk. destruct (IHkey k r Hk) as [-> | [h Hh]]; [left; reflexivity |].
        right. exists h. apply in_or_app. left. exact Hh.
    + destruct Hcall as (_ & _ & _ & _ & ->).
      cbn [storage log requested_storage psiRequests].
      set (r0 := new_request env participants sizeOnly).
      set (handles0 := flat_map (current_items (storage w)) participants).
      set (token0 := snd (FHE_requestComputation (engine w) handles0
                            receivePSIResult_selector)).
      assert (Hkeep : forall k, is_Some (psiRequests (storage w) !! k) ->
        is_Some (<[token0 := r0]> (<[PSIRequest.id r0 := r0]> (psiRequests (storage w)))
                   !! k)).
      { intros k Hk. destruct (decide (token0 = k)) as [<- | Hne].
        - rewrite lookup_insert_eq. eauto.
        - rewrite lookup_insert_ne by exact Hne.
          destruct (decide (PSIRequest.id r0 = k)) as [<- | Hne'].
          + rewrite lookup_insert_eq. eauto.
          + rewrite lookup_insert_ne by exact Hne'. exact Hk. }
      rewrite dispatched_app, requested_ids_app, !length_app. cbn [length dispatched
        requested_ids flat_map app].
      split; [lia |]. split; [| split].
      * intros h sel t Hin. apply in_app_or in Hin as [Hin | [Hin | [Hin | []]]].
        -- destruct (IHtok h sel t Hin) as [Hsel Hsome]. split; [exact Hsel | auto].
        -- injection Hin as <- <- <-. split; [reflexivity |].
           rewrite lookup_insert_eq. eauto.
        -- discriminate.
      * intros k Hin. apply in_app_or in Hin as [Hin | [<- | []]]; [auto |].
        destruct (decide (token0 = PSIRequest.id r0)) as [Heq | Hne].
        -- rewrite <- Heq, lookup_insert_eq. eauto.
        -- rewrite lookup_insert_ne by exact Hne. rewrite lookup_insert_eq. eauto.
      * intros k r. destruct (decide (token0 = k)) as [<- | Hne].
        -- rewrite lookup_insert_eq. intros _. right. exists handles0.
           apply in_or_app. right. left. reflexivity.
        -- rewrite lookup_insert_ne by exact Hne.
           destruct (decide (PSIRequest.id r0 = k)) as [<- | Hne'].
           ++ rewrite lookup_insert_eq. intros [= <-]. left. reflexivity.
           ++ rewrite lookup_insert_ne by exact Hne'. intros Hk.
              destruct (IHkey k r Hk) as [-> | [h Hh]]; [left; reflexivity |].
              right. exists h. apply in_or_app. left. exact Hh.
    + destruct Hcall as (_ & _ & ->). cbn [storage log set_psiResult psiRequests].
      rewrite dispatched_app, requested_ids_app. cbn. rewrite !app_nil_r.
      split; [exact IHlen |]. split; [| split].
      * intros h sel t Hin. apply in_app_or in Hin as [Hin | [Hin | []]];
          [eauto | discriminate].
      * exact IHid.
      * intros k r Hk. destruct (IHkey k r Hk) as [-> | [h Hh]]; [left; reflexivity |].
        right. exists h. apply in_or_app. left. exact Hh.
Qed.

(** ** Where a result ends up *)

(** A callback accepted under the engine's token stores the result under the
    token.  What [getEncryptedPSIResult] returns for the id that
    [requestMultiPSI] returned is left as it was before the request, unless
    token and id coincide. *)
Theorem callback_stores_under_token env participants sizeOnly w reqId w1
    env' token encryptedResult proof w2 :
  requestMultiPSI env participants sizeOnly w = inr (reqId, w1) ->
  receivePSIResult env' token encryptedResult proof w1 = inr (tt, w2) ->
  getEncryptedPSIResult w2 token = encryptedResult
  /\ (token <> reqId -> getEncryptedPSIResult w2 reqId = getEncryptedPSIResult w reqId).
Proof.
  intros Hreq Hcb. pose proof (requestMultiPSI_success _ _ _ _ _ _ Hreq) as [-> ->].
  rewrite receivePSIResult_closed_form in Hcb.
  destruct (FHE_checkSignatures _ _ _ _); [| discriminate]. simplify_eq.
  unfold getEncryptedPSIResult, psiResults_at. cbn. split.
  - rewrite lookup_insert_eq. reflexivity.
  - intros Hne. rewrite lookup_insert_ne by exact Hne. reflexivity.
Qed.

(** ** Submissions are never refused for their content *)

(** A submission succeeds for every caller and every item list, the empty
    one included, as long as the counter can still grow; the only way it
    fails is the overflow panic. *)
Theorem submitEncryptedSet_fails_only_on_overflow env items w :
  ((exists w', submitEncryptedSet env items w = inr (tt, w'))
   <-> setCount (storage w) + 1 <= MAX_UINT256)
  /\ (forall e, submitEncryptedSet env items w = inl e -> e = Panic PANIC_OVERFLOW).
Proof.
  rewrite submitEncryptedSet_closed_form.
  destruct (_ <=? MAX_UINT256) eqn:Hle.
  - apply Z.leb_le in Hle. split; [split; [intros _; exact Hle | eauto] | discriminate].
  - apply Z.leb_gt in Hle. split.
    + split; [intros [w' H]; discriminate | lia].
    + intros e [= <-]. reflexivity.
Qed.

(** ** Callbacks for ids without a request *)



End Properties.

(** * The properties on the sample run *)

Section SampleRun.

Local Existing Instance toy.

Lemma reachable_world2 : reachable world2.
Proof.
  apply (reachable_call world1 at_bob (SubmitEncryptedSet [41; 42; 43; 44]) []).
  - apply (reachable_call world0 at_alice (SubmitEncryptedSet [31; 32; 33]) []).
    + exact (reachable_initial 500).
    + vm_compute. reflexivity.
  - vm_compute. reflexivity.
Defined.

(** C1 fails as stated: after the first callback for Carol's token has
    committed, the same callback replayed is accepted again, and one with
    another payload is accepted and replaces the committed payload. *)
Lemma second_callback_overwrites :
  call at_bob (ReceivePSIResult carol_token sample_result good_proof) world3
    = inr ([], world4)
  /\ getEncryptedPSIResult world4 carol_token = sample_result
  /\ call at_carol (ReceivePSIResult carol_token sample_result good_proof) world4
    = inr ([], world_replay)
  /\ log world_replay = log world4 ++ [Emit (PSIResultReceived carol_token)]
  /\ call at_alice (ReceivePSIResult carol_token other_result good_proof) world4
    = inr ([], world5)
  /\ getEncryptedPSIResult world5 carol_token = other_result
  /\ other_result <> sample_result.
Proof.
  split; [vm_compute; reflexivity |].
  split; [vm_compute; reflexivity |].
  split; [vm_compute; reflexivity |].
  split; [vm_compute; reflexivity |].
  split; [vm_compute; reflexivity |].
  split; [vm_compute; reflexivity | discriminate].
Qed.

Lemma receivePSIResult_last_write_wins_witness :
  FHE_checkSignatures (engine world3) carol_token sample_result good_proof = true
  /\ FHE_checkSignatures (engine world3) carol_token other_result good_proof = true
  /\ exists w1 w2,
    receivePSIResult at_bob carol_token sample_result good_proof world3 = inr (tt, w1)
    /\ receivePSIResult at_alice carol_token other_result good_proof w1 = inr (tt, w2)
    /\ getEncryptedPSIResult w1 carol_token = sample_result
    /\ getEncryptedPSIResult w2 carol_token = other_result
    /\ log w2 = log world3 ++ [Emit (PSIResultReceived carol_token);
                               Emit (PSIResultReceived carol_token)]
    /\ (sample_result = other_result -> storage w2 = storage w1).
Proof.
  split; [vm_compute; reflexivity |]. split; [vm_compute; reflexivity |].
  apply (receivePSIResult_last_write_wins at_bob at_alice carol_token
           sample_result good_proof other_result good_proof world3);
    vm_compute; reflexivity.
Defined.

(** C3 fails as stated: after a callback with a refused proof the request
    record is what [requestMultiPSI] wrote, unchanged; nothing marks it as
    failed. *)
Lemma refused_callback_changes_no_request :
  call at_bob (ReceivePSIResult carol_token sample_result bad_proof) world3
    = inl InvalidSignatures
  /\ psiRequests (storage world3) !! carol_token
     = Some (new_request at_carol [alice; bob] true)
  /\ execute at_bob (ReceivePSIResult carol_token sample_result bad_proof) world3 = world3.
Proof.
  split; [vm_compute; reflexivity |].
  split; vm_compute; reflexivity.
Qed.

Lemma receivePSIResult_bad_proof_reverts_witness :
  FHE_checkSignatures (engine world3) carol_token sample_result bad_proof = false
  /\ receivePSIResult at_bob carol_token sample_result bad_proof world3
     = inl InvalidSignatures
  /\ execute at_bob (ReceivePSIResult carol_token sample_result bad_proof) world3 = world3.
Proof.
  split; [vm_compute; reflexivity |].
  apply (receivePSIResult_bad_proof_reverts at_bob carol_token sample_result
           bad_proof world3). vm_compute. reflexivity.
Defined.

Lemma requestMultiPSI_returns_hash_witness :
  requestMultiPSI at_carol [alice; bob] true world2 = inr (carol_request_id, world3)
  /\ carol_request_id
     = keccak256 (abi_encodePacked (msg_sender at_carol) (block_timestamp at_carol)
                    [alice; bob])
  /\ call at_carol (RequestMultiPSI [alice; bob] true) world2
     = inr ([carol_request_id], world3)
  /\ last (log world3) = Some (Emit (PSIRequested carol_request_id)).
Proof.
  assert (Hrun : requestMultiPSI at_carol [alice; bob] true world2
                 = inr (carol_request_id, world3)) by (vm_compute; reflexivity).
  split; [exact Hrun |].
  exact (requestMultiPSI_returns_hash at_carol [alice; bob] true world2
           carol_request_id world3 Hrun).
Defined.

Lemma requestMultiPSI_token_and_id_agree_witness :
  requestMultiPSI at_carol [alice; bob] true world2 = inr (carol_request_id, world3)
  /\ exists handles token,
    FHE_requestComputation (engine world2) handles receivePSIResult_selector
      = (engine world3, token)
    /\ In (Dispatch handles receivePSIResult_selector token) (log world3)
    /\ psiRequests (storage world3) !! token = Some (new_request at_carol [alice; bob] true)
    /\ psiRequests (storage world3) !! carol_request_id
       = Some (new_request at_carol [alice; bob] true)
    /\ psiRequests_at (storage world3) token
       = psiRequests_at (storage world3) carol_request_id.
Proof.
  assert (Hrun : requestMultiPSI at_carol [alice; bob] true world2
                 = inr (carol_request_id, world3)) by (vm_compute; reflexivity).
  split; [exact Hrun |].
  exact (requestMultiPSI_token_and_id_agree at_carol [alice; bob] true world2
           carol_request_id world3 Hrun).
Defined.

Lemma requestMultiPSI_dispatches_concatenation_witness :
  requestMultiPSI at_carol [alice; bob] true world2 = inr (carol_request_id, world3)
  /\ dispatched (log world3)
     = dispatched (log world2)
       ++ [flat_map (fun p => getEncryptedSetItems world2 (getSetId world2 p)) [alice; bob]]
  /\ (forall a b, [alice; bob] = [a; b] ->
      dispatched (log world3)
      = dispatched (log world2)
        ++ [getEncryptedSetItems world2 (getSetId world2 a)
            ++ getEncryptedSetItems world2 (getSetId world2 b)]).
Proof.
  assert (Hrun : requestMultiPSI at_carol [alice; bob] true world2
                 = inr (carol_request_id, world3)) by (vm_compute; reflexivity).
  split; [exact Hrun |].
  exact (requestMultiPSI_dispatches_concatenation at_carol [alice; bob] true world2
           carol_request_id world3 Hrun).
Defined.

(** The sample run of C6, spelled out: seven handles, Alice's then Bob's. *)
Example sample_dispatch : dispatched (log world3) = [[31; 32; 33; 41; 42; 43; 44]].
Proof. vm_compute. reflexivity. Qed.

(** C7 fails as stated: with Alice named twice the request goes through,
    and her three items reach the engine twice. *)
Lemma duplicate_participant_accepted :
  call at_alice (RequestMultiPSI [alice; alice] false) world2
    = inr ([toy_hash (abi_encodePacked alice 1000 [alice; alice])], world_twice)
  /\ dispatched (log world_twice) = [[31; 32; 33; 31; 32; 33]].
Proof. split; vm_compute; reflexivity. Qed.

Lemma requestMultiPSI_single_and_duplicate_witness :
  getSetId world2 carol = 0
  /\ getSetId world2 alice <> 0
  /\ requestMultiPSI at_alice [alice; alice] false world2
     = inr (toy_hash (abi_encodePacked alice 1000 [alice; alice]), world_twice)
  /\ requestMultiPSI at_alice [alice] false world2 = inl (Error "Need >=2 participants")
  /\ requestMultiPSI at_carol [carol; carol] false world2
     = inl (Error "Participant missing set")
  /\ (forall reason,
        requestMultiPSI at_alice [alice; alice] false world2 <> inl (Error reason))
  /\ dispatched (log world_twice)
     = dispatched (log world2)
       ++ [getEncryptedSetItems world2 (getSetId world2 alice)
           ++ getEncryptedSetItems world2 (getSetId world2 alice)].
Proof.
  assert (Hcarol : getSetId world2 carol = 0) by (vm_compute; reflexivity).
  assert (Halice : getSetId world2 alice <> 0) by (vm_compute; discriminate).
  assert (Hrun : requestMultiPSI at_alice [alice; alice] false world2
                 = inr (toy_hash (abi_encodePacked alice 1000 [alice; alice]), world_twice))
    by (vm_compute; reflexivity).
  split; [exact Hcarol |]. split; [exact Halice |]. split; [exact Hrun |]. split.
  - exact (proj1 (requestMultiPSI_single_and_duplicate at_alice alice false world2)).
  - split.
    + exact (proj1 (proj2 (requestMultiPSI_single_and_duplicate at_carol carol false world2))
               Hcarol).
    + split.
      * exact (proj1 (proj2 (proj2 (requestMultiPSI_single_and_duplicate at_alice alice
                                      false world2)) Halice)).
      * exact (proj2 (proj2 (proj2 (requestMultiPSI_single_and_duplicate at_alice alice
                                      false world2)) Halice) _ _ Hrun).
Defined.

Lemma requestMultiPSI_rejection_atomic_witness :
  ((length [alice; carol] < 2)%nat \/ Exists (fun p => getSetId world2 p = 0) [alice; carol])
  /\ (exists e,
       requestMultiPSI at_alice [alice; carol] false world2 = inl e
       /\ ((length [alice; carol] < 2)%nat -> e = Error "Need >=2 participants")
       /\ ((2 <= length [alice; carol])%nat ->
           Z.of_nat (length (flat_map (current_items (storage world2)) [alice; carol]))
             <= MAX_UINT256 ->
           e = Error "Participant missing set"))
  /\ execute at_alice (RequestMultiPSI [alice; carol] false) world2 = world2.
Proof.
  assert (Hmiss : (length [alice; carol] < 2)%nat
                  \/ Exists (fun p => getSetId world2 p = 0) [alice; carol]).
  { right. apply Exists_cons_tl, Exists_cons_hd. vm_compute. reflexivity. }
  split; [exact Hmiss |].
  exact (requestMultiPSI_rejection_atomic at_alice [alice; carol] false world2 Hmiss).
Defined.

(** C9 fails as stated: the submission assigns id 1 to Alice's set, and the
    call returns no data at all. *)
Lemma submit_returns_no_id :
  call at_alice (SubmitEncryptedSet [31; 32; 33]) world0 = inr ([], world1)
  /\ getSetId world1 alice = 1
  /\ submitted_ids (log world1) = [1]
  /\ ([] : list Z) <> [getSetId world1 alice].
Proof.
  split; [vm_compute; reflexivity |].
  split; [vm_compute; reflexivity |].
  split; [vm_compute; reflexivity | discriminate].
Qed.

Lemma submitEncryptedSet_fresh_id_witness :
  reachable world2
  /\ setCount (storage world2) < MAX_UINT256
  /\ exists w',
    call at_carol (SubmitEncryptedSet [51; 52]) world2 = inr ([], w')
    /\ log w' = log world2 ++ [Emit (EncryptedSetSubmitted (setCount (storage world2) + 1))]
    /\ ~ In (setCount (storage world2) + 1) (submitted_ids (log world2))
    /\ NoDup (submitted_ids (log w'))
    /\ encryptedSets (storage world2) !! (setCount (storage world2) + 1) = None
    /\ (forall o, getSetId world2 o <> setCount (storage world2) + 1)
    /\ getSetId w' (msg_sender at_carol) = setCount (storage world2) + 1
    /\ encryptedSets (storage w') !! (setCount (storage world2) + 1)
       = Some (EncryptedSet.mk (setCount (storage world2) + 1) (msg_sender at_carol)
                 [51; 52] (block_timestamp at_carol)).
Proof.
  assert (Hroom : setCount (storage world2) < MAX_UINT256) by (vm_compute; reflexivity).
  split; [exact reachable_world2 |]. split; [exact Hroom |].
  exact (submitEncryptedSet_fresh_id at_carol [51; 52] world2 reachable_world2 Hroom).
Defined.

(** ** Further properties on the sample run *)

Lemma reachable_world3 : reachable world3.
Proof.
  apply (reachable_call world2 at_carol (RequestMultiPSI [alice; bob] true)
           [carol_request_id]).
  - exact reachable_world2.
  - vm_compute. reflexivity.
Defined.

Lemma reachable_world4 : reachable world4.
Proof.
  apply (reachable_call world3 at_bob
           (ReceivePSIResult carol_token sample_result good_proof) []).
  - exact reachable_world3.
  - vm_compute. reflexivity.
Defined.

Lemma evolves_world2_world4 : evolves world2 world4.
Proof.
  apply (evolves_call world2 world3 at_bob
           (ReceivePSIResult carol_token sample_result good_proof) []).
  - apply (evolves_call world2 world2 at_carol (RequestMultiPSI [alice; bob] true)
             [carol_request_id]).
    + apply evolves_refl.
    + vm_compute. reflexivity.
  - vm_compute. reflexivity.
Defined.

Lemma requestMultiPSI_success_requires_witness :
  requestMultiPSI at_carol [alice; bob] true world2 = inr (carol_request_id, world3)
  /\ (2 <= length [alice; bob])%nat
  /\ Forall (fun p => getSetId world2 p <> 0) [alice; bob]
  /\ Z.of_nat (length (flat_map (fun p => getEncryptedSetItems world2 (getSetId world2 p))
                         [alice; bob])) <= MAX_ARRAY_LENGTH.
Proof.
  assert (Hrun : requestMultiPSI at_carol [alice; bob] true world2
                 = inr (carol_request_id, world3)) by (vm_compute; reflexivity).
  split; [exact Hrun |].
  exact (requestMultiPSI_success_requires at_carol [alice; bob] true world2
           carol_request_id world3 Hrun).
Defined.

Lemma copy_loops_stay_in_bounds_witness :
  count_items [alice; bob] world2 = inr (7, world2)
  /\ (forall e, gather_items [alice; bob] 7 world2 = inl e -> e = Panic PANIC_ALLOC)
  /\ (forall allCiphertexts w2,
        gather_items [alice; bob] 7 world2 = inr (allCiphertexts, w2) ->
        w2 = world2
        /\ allCiphertexts
           = flat_map (fun p => getEncryptedSetItems world2 (getSetId world2 p))
               [alice; bob]
        /\ Z.of_nat (length allCiphertexts) = 7).
Proof.
  assert (Hcount : count_items [alice; bob] world2 = inr (7, world2))
    by (vm_compute; reflexivity).
  split; [exact Hcount |].
  exact (copy_loops_stay_in_bounds [alice; bob] world2 7 world2 Hcount).
Defined.

Lemma submitEncryptedSet_frame_witness :
  submitEncryptedSet at_bob [41; 42; 43; 44] world1 = inr (tt, world2)
  /\ setCount (storage world2) = setCount (storage world1) + 1
  /\ psiRequests (storage world2) = psiRequests (storage world1)
  /\ psiResults (storage world2) = psiResults (storage world1)
  /\ engine world2 = engine world1
  /\ (forall o, o <> msg_sender at_bob -> getSetId world2 o = getSetId world1 o)
  /\ (forall k, k <> setCount (storage world1) + 1 ->
      encryptedSets (storage world2) !! k = encryptedSets (storage world1) !! k).
Proof.
  assert (Hrun : submitEncryptedSet at_bob [41; 42; 43; 44] world1 = inr (tt, world2))
    by (vm_compute; reflexivity).
  split; [exact Hrun |].
  exact (submitEncryptedSet_frame at_bob [41; 42; 43; 44] world1 world2 Hrun).
Defined.

Lemma requestMultiPSI_frame_witness :
  requestMultiPSI at_carol [alice; bob] true world2 = inr (carol_request_id, world3)
  /\ setCount (storage world3) = setCount (storage world2)
  /\ ownerToSetId (storage world3) = ownerToSetId (storage world2)
  /\ encryptedSets (storage world3) = encryptedSets (storage world2)
  /\ psiResults (storage world3) = psiResults (storage world2)
  /\ exists handles token,
       log world3 = log world2 ++ [Dispatch handles receivePSIResult_selector token;
                                   Emit (PSIRequested carol_request_id)]
       /\ forall k, k <> carol_request_id -> k <> token ->
            psiRequests (storage world3) !! k = psiRequests (storage world2) !! k.
Proof.
  assert (Hrun : requestMultiPSI at_carol [alice; bob] true world2
                 = inr (carol_request_id, world3)) by (vm_compute; reflexivity).
  split; [exact Hrun |].
  exact (requestMultiPSI_frame at_carol [alice; bob] true world2 carol_request_id
           world3 Hrun).
Defined.

Lemma receivePSIResult_frame_witness :
  receivePSIResult at_bob carol_token sample_result good_proof world3 = inr (tt, world4)
  /\ getEncryptedPSIResult world4 carol_token = sample_result
  /\ setCount (storage world4) = setCount (storage world3)
  /\ ownerToSetId (storage world4) = ownerToSetId (storage world3)
  /\ encryptedSets (storage world4) = encryptedSets (storage world3)
  /\ psiRequests (storage world4) = psiRequests (storage world3)
  /\ log world4 = log world3 ++ [Emit (PSIResultReceived carol_token)]
  /\ (forall k, k <> carol_token ->
      getEncryptedPSIResult world4 k = getEncryptedPSIResult world3 k).
Proof.
  assert (Hrun : receivePSIResult at_bob carol_token sample_result good_proof world3
                 = inr (tt, world4)) by (vm_compute; reflexivity).
  split; [exact Hrun |].
  exact (receivePSIResult_frame at_bob carol_token sample_result good_proof world3
           world4 Hrun).
Defined.

Lemma reachable_sets_exact_witness :
  reachable world2
  /\ (forall k, is_Some (encryptedSets (storage world2) !! k)
                <-> 1 <= k <= setCount (storage world2))
  /\ (forall k r, encryptedSets (storage world2) !! k = Some r -> EncryptedSet.id r = k)
  /\ (forall k, ~ 1 <= k <= setCount (storage world2) ->
        getEncryptedSetItems world2 k = []).
Proof.
  split; [exact reachable_world2 |].
  exact (reachable_sets_exact world2 reachable_world2).
Defined.

Lemma reachable_pointer_latest_witness :
  reachable world2
  /\ (forall o, getSetId world2 o <> 0 ->
     exists r, encryptedSets (storage world2) !! getSetId world2 o = Some r
               /\ EncryptedSet.owner r = o
               /\ forall k' r', encryptedSets (storage world2) !! k' = Some r' ->
                                EncryptedSet.owner r' = o -> k' <= getSetId world2 o)
  /\ (forall k r, encryptedSets (storage world2) !! k = Some r ->
        getSetId world2 (EncryptedSet.owner r) <> 0).
Proof.
  split; [exact reachable_world2 |].
  exact (reachable_pointer_latest world2 reachable_world2).
Defined.

Lemma onlyOwnerOfSet_reachable_witness :
  reachable world2
  /\ getSetId world2 (msg_sender at_alice) <> 0
  /\ ~ 1 <= 7 <= setCount (storage world2)
  /\ msg_sender at_alice <> 0
  /\ onlyOwnerOfSet at_alice (getSetId world2 (msg_sender at_alice)) world2
     = inr (tt, world2)
  /\ onlyOwnerOfSet at_alice 7 world2 = inl (Error "Not owner").
Proof.
  assert (Hptr : getSetId world2 (msg_sender at_alice) <> 0) by (vm_compute; discriminate).
  assert (Hout : ~ 1 <= 7 <= setCount (storage world2)).
  { intros [_ Hle]. vm_compute in Hle. apply Hle. reflexivity. }
  assert (Hsender : msg_sender at_alice <> 0) by (vm_compute; discriminate).
  split; [exact reachable_world2 |]. split; [exact Hptr |]. split; [exact Hout |].
  split; [exact Hsender |]. split.
  - exact (proj1 (onlyOwnerOfSet_reachable at_alice world2 reachable_world2) Hptr).
  - exact (proj2 (onlyOwnerOfSet_reachable at_alice world2 reachable_world2) 7 Hout
             Hsender).
Defined.

Lemma encryptedSets_immutable_witness :
  reachable world2
  /\ evolves world2 world4
  /\ encryptedSets (storage world2) !! 1 = Some alice_set
  /\ encryptedSets (storage world4) !! 1 = Some alice_set
  /\ getEncryptedSetItems world4 1 = getEncryptedSetItems world2 1.
Proof.
  assert (Hset : encryptedSets (storage world2) !! 1 = Some alice_set)
    by (vm_compute; reflexivity).
  split; [exact reachable_world2 |]. split; [exact evolves_world2_world4 |].
  split; [exact Hset |].
  exact (encryptedSets_immutable world2 world4 1 alice_set reachable_world2
           evolves_world2_world4 Hset).
Defined.

Lemma pointers_only_advance_witness :
  reachable world2
  /\ evolves world2 world4
  /\ setCount (storage world2) <= setCount (storage world4)
  /\ forall o, getSetId world2 o <> 0 ->
       getSetId world4 o <> 0 /\ getSetId world2 o <= getSetId world4 o.
Proof.
  split; [exact reachable_world2 |]. split; [exact evolves_world2_world4 |].
  exact (pointers_only_advance world2 world4 reachable_world2 evolves_world2_world4).
Defined.

Lemma results_only_from_callbacks_witness :
  reachable world4
  /\ (forall k, getEncryptedPSIResult world4 k <> [] -> In k (received_ids (log world4)))
  /\ (forall k, ~ In k (received_ids (log world4)) -> getEncryptedPSIResult world4 k = []).
Proof.
  split; [exact reachable_world4 |].
  exact (results_only_from_callbacks world4 reachable_world4).
Defined.

Lemma stored_requests_valid_witness :
  reachable world3
  /\ psiRequests (storage world3) !! carol_token
     = Some (new_request at_carol [alice; bob] true)
  /\ (2 <= length (PSIRequest.participants (new_request at_carol [alice; bob] true)))%nat
  /\ Forall (fun p => getSetId world3 p <> 0)
       (PSIRequest.participants (new_request at_carol [alice; bob] true))
  /\ PSIRequest.id (new_request at_carol [alice; bob] true)
     = keccak256 (abi_encodePacked
         (PSIRequest.requester (new_request at_carol [alice; bob] true))
         (PSIRequest.timestamp (new_request at_carol [alice; bob] true))
         (PSIRequest.participants (new_request at_carol [alice; bob] true)))
  /\ In (PSIRequest.id (new_request at_carol [alice; bob] true))
        (requested_ids (log world3)).
Proof.
  assert (Hreq : psiRequests (storage world3) !! carol_token
                 = Some (new_request at_carol [alice; bob] true))
    by (vm_compute; reflexivity).
  split; [exact reachable_world3 |]. split; [exact Hreq |].
  exact (stored_requests_valid world3 carol_token _ reachable_world3 Hreq).
Defined.

Lemma resubmission_supersedes_witness :
  reachable world2
  /\ msg_sender at_alice = msg_sender at_alice_later
  /\ setCount (storage world2) + 2 <= MAX_UINT256
  /\ exists w1 w2,
    submitEncryptedSet at_alice [51; 52] world2 = inr (tt, w1)
    /\ submitEncryptedSet at_alice_later [61] w1 = inr (tt, w2)
    /\ getSetId w1 (msg_sender at_alice) = setCount (storage world2) + 1
    /\ getSetId w2 (msg_sender at_alice) = setCount (storage world2) + 2
    /\ getEncryptedSetItems w2 (setCount (storage world2) + 1) = [51; 52]
    /\ getEncryptedSetItems w2 (setCount (storage world2) + 2) = [61].
Proof.
  assert (Hroom : setCount (storage world2) + 2 <= MAX_UINT256)
    by (vm_compute; discriminate).
  split; [exact reachable_world2 |]. split; [reflexivity |]. split; [exact Hroom |].
  exact (resubmission_supersedes at_alice at_alice_later [51; 52] [61] world2
           reachable_world2 eq_refl Hroom).
Defined.

Lemma two_submissions_then_request_witness :
  reachable world0
  /\ msg_sender at_alice <> msg_sender at_bob
  /\ setCount (storage world0) + 2 <= MAX_UINT256
  /\ Z.of_nat (length [31; 32; 33] + length [41; 42; 43; 44]) <= MAX_UINT256
  /\ exists w1 w2,
    submitEncryptedSet at_alice [31; 32; 33] world0 = inr (tt, w1)
    /\ submitEncryptedSet at_bob [41; 42; 43; 44] w1 = inr (tt, w2)
    /\ count_items [msg_sender at_alice; msg_sender at_bob] w2
       = inr (Z.of_nat (length [31; 32; 33] + length [41; 42; 43; 44]), w2)
    /\ forall reqId w3,
         requestMultiPSI at_carol [msg_sender at_alice; msg_sender at_bob] true w2
           = inr (reqId, w3) ->
         dispatched (log w3)
         = dispatched (log world0) ++ [[31; 32; 33] ++ [41; 42; 43; 44]].
Proof.
  assert (Hdiff : msg_sender at_alice <> msg_sender at_bob) by (vm_compute; discriminate).
  assert (Hroom : setCount (storage world0) + 2 <= MAX_UINT256)
    by (vm_compute; discriminate).
  assert (Hfits : Z.of_nat (length [31; 32; 33] + length [41; 42; 43; 44])
                  <= MAX_UINT256) by (vm_compute; discriminate).
  split; [exact (reachable_initial 500) |]. split; [exact Hdiff |].
  split; [exact Hroom |]. split; [exact Hfits |].
  exact (two_submissions_then_request at_alice at_bob at_carol [31; 32; 33]
           [41; 42; 43; 44] true world0 (reachable_initial 500) Hdiff Hroom Hfits).
Defined.

Lemma requestMultiPSI_same_block_collision_witness :
  requestMultiPSI at_carol [alice; bob] true world2 = inr (carol_request_id, world3)
  /\ psiRequests (storage world3) !! carol_request_id
     = Some (new_request at_carol [alice; bob] true)
  /\ exists w2,
       requestMultiPSI at_carol [alice; bob] false world3 = inr (carol_request_id, w2)
       /\ psiRequests (storage w2) !! carol_request_id
          = Some (new_request at_carol [alice; bob] false)
       /\ PSIRequest.sizeOnly (psiRequests_at (storage w2) carol_request_id) = false.
Proof.
  assert (Hrun : requestMultiPSI at_carol [alice; bob] true world2
                 = inr (carol_request_id, world3)) by (vm_compute; reflexivity).
  split; [exact Hrun |].
  exact (requestMultiPSI_same_block_collision at_carol [alice; bob] true false world2
           carol_request_id world3 Hrun).
Defined.

Lemma abi_encodePacked_injective_witness :
  is_address carol /\ is_address carol
  /\ is_uint256 1002 /\ is_uint256 1002
  /\ Forall is_address [alice; bob] /\ Forall is_address [alice; bob]
  /\ length (abi_encodePacked carol 1002 [alice; bob]) = (52 + 32 * length [alice; bob])%nat
  /\ (abi_encodePacked carol 1002 [alice; bob] = abi_encodePacked carol 1002 [alice; bob] ->
      carol = carol /\ 1002 = 1002 /\ [alice; bob] = [alice; bob]).
Proof.
  assert (Ha : forall a, 0 <= a < 1024 -> is_address a).
  { intros a Ha. unfold is_address.
    assert (1024 < 2 ^ 160) by (vm_compute; reflexivity). lia. }
  assert (Hcarol : is_address carol) by (apply Ha; unfold carol; lia).
  assert (Hnow : is_uint256 1002).
  { unfold is_uint256. split; [lia | vm_compute; reflexivity]. }
  assert (Hps : Forall is_address [alice; bob]).
  { repeat constructor; apply Ha; unfold alice, bob; lia. }
  split; [exact Hcarol |]. split; [exact Hcarol |]. split; [exact Hnow |].
  split; [exact Hnow |]. split; [exact Hps |]. split; [exact Hps |].
  exact (abi_encodePacked_injective carol 1002 [alice; bob] carol 1002 [alice; bob]
           Hcarol Hcarol Hnow Hnow Hps Hps).
Defined.

Lemma announced_sets_stored_witness :
  reachable world2
  /\ submitted_ids (log world2)
     = map Z.of_nat (seq 1 (Z.to_nat (setCount (storage world2))))
  /\ (forall k, In k (submitted_ids (log world2))
                <-> is_Some (encryptedSets (storage world2) !! k)).
Proof.
  split; [exact reachable_world2 |].
  exact (announced_sets_stored world2 reachable_world2).
Defined.

Lemma requests_accounting_witness :
  reachable world3
  /\ length (dispatched (log world3)) = length (requested_ids (log world3))
  /\ (forall handles selector token, In (Dispatch handles selector token) (log world3) ->
        selector = receivePSIResult_selector
        /\ is_Some (psiRequests (storage world3) !! token))
  /\ (forall k, In k (requested_ids (log world3)) ->
        is_Some (psiRequests (storage world3) !! k))
  /\ (forall k r, psiRequests (storage world3) !! k = Some r ->
        k = PSIRequest.id r
        \/ exists handles, In (Dispatch handles receivePSIResult_selector k) (log world3)).
Proof.
  split; [exact reachable_world3 |].
  exact (requests_accounting world3 reachable_world3).
Defined.

Lemma callback_stores_under_token_witness :
  requestMultiPSI at_carol [alice; bob] true world2 = inr (carol_request_id, world3)
  /\ receivePSIResult at_bob carol_token sample_result good_proof world3 = inr (tt, world4)
  /\ carol_token <> carol_request_id
  /\ getEncryptedPSIResult world4 carol_token = sample_result
  /\ getEncryptedPSIResult world4 carol_request_id
     = getEncryptedPSIResult world2 carol_request_id.
Proof.
  assert (Hreq : requestMultiPSI at_carol [alice; bob] true world2
                 = inr (carol_request_id, world3)) by (vm_compute; reflexivity).
  assert (Hcb : receivePSIResult at_bob carol_token sample_result good_proof world3
                = inr (tt, world4)) by (vm_compute; reflexivity).
  assert (Hne : carol_token <> carol_request_id) by (vm_compute; discriminate).
  split; [exact Hreq |]. split; [exact Hcb |]. split; [exact Hne |]. split.
  - exact (proj1 (callback_stores_under_token at_carol [alice; bob] true world2
                    carol_request_id world3 at_bob carol_token sample_result good_proof
                    world4 Hreq Hcb)).
  - exact (proj2 (callback_stores_under_token at_carol [alice; bob] true world2
                    carol_request_id world3 at_bob carol_token sample_result good_proof
                    world4 Hreq Hcb) Hne).
Defined.

(** ** The callback on the engine that keeps track of its tokens *)



End SampleRun.
